(** * protect_secrets.py: batch submission of secrets to a vault

    A shallow embedding of [src/protect_secrets.py].  The program reads
    rows of a semicolon-delimited CSV file, validates each row, drives an
    external submission client once per valid row and tallies the
    outcomes.  What the program does not define itself (the file system,
    the CSV reader, the submission client) is a parameter of the
    development: a [Host] record of oracles over an abstract world.
    Effects are threaded through a small monad with state, Python
    exceptions and a trace of observable events; the lines given to the
    logger are events of that trace.

    The handlers of the program are [except Exception].  The development
    first takes collaborators that raise instances of [Exception] only;
    the module [Signals] then gives the functions that hold a handler with
    the test of the class, for the exceptions that derive from
    [BaseException] only, and the two are shown to agree on collaborators
    of the first kind. *)

From Stdlib Require Import Ascii String.
From stdpp Require Import gmap strings list pretty.

Open Scope Z_scope.

(** ** Python values, exceptions, events *)

(** A cell of a row produced by [csv.DictReader]: a string, or [None] when
    the row is shorter than the header. *)
Inductive pyval :=
| PyNone
| PyStr (s : string).

Global Instance pyval_eq_dec : EqDecision pyval.
Proof. solve_decision. Defined.

(** Truthiness, as tested by [not record.get(field)]. *)
Definition truthy (v : pyval) : bool :=
  match v with
  | PyNone => false
  | PyStr s => if decide (s = "") then false else true
  end.

(** What an f-string interpolation prints. *)
Definition fmt (v : pyval) : string :=
  match v with
  | PyNone => "None"
  | PyStr s => s
  end.

(** A raised exception: the name of its class and what [str(e)] returns.
    The handlers of the program name the class [Exception] ([except
    Exception as e]).  Up to the module [Signals] the development takes
    what is raised to be an instance of that class, so that a handler
    catches it whatever its name; [Signals] adds the test of the class
    and with it the exceptions that derive from [BaseException] only
    (interpreter exit, keyboard interrupt, cancellation). *)
Record pyexc := PyExc { exc_class : string; exc_str : string }.

Definition KeyError (k : string) : pyexc := PyExc "KeyError" ("'" +:+ k +:+ "'").
Definition TypeError (msg : string) : pyexc := PyExc "TypeError" msg.
Definition ValueError (msg : string) : pyexc := PyExc "ValueError" msg.

(** A row: [Dict[str, str]], keyed by the header's column names. *)
Abbreviation record := (gmap string pyval).

(** Modelled from the spec: [SecretSubmission] is imported from
    [sv_secret_submitter], which is not part of the sources at hand.  The
    spec gives its shape: [name], [type], [tag], [text], [keepic_path];
    the constructor stores its keyword arguments. *)
Record SecretSubmission := {
  name : pyval;
  type : pyval;
  tag : pyval;
  text : pyval;
  keepic_path : pyval
}.

Global Instance SecretSubmission_eq_dec : EqDecision SecretSubmission.
Proof. solve_decision. Defined.

(** Observable events: log lines and calls into the submission client. *)
Inductive event :=
| LogError (msg : string)
| LogInfo (msg : string)
| SvInit (stage : string) (headless : bool)
| SvEnter
| SvAuthenticate (username password : pyval)
| SvSubmit (secret : SecretSubmission)
| SvExit.

Global Instance event_eq_dec : EqDecision event.
Proof. solve_decision. Defined.

(** The events that touch the Submission Adapter. *)
Definition adapter_event (e : event) : bool :=
  match e with
  | LogError _ | LogInfo _ => false
  | _ => true
  end.

(** ** The effect monad *)

(** What a call into a collaborator comes back with: a value or a raised
    exception. *)
Inductive answer (A : Type) :=
| Ok (a : A)
| Err (e : pyexc).
Arguments Ok {A} a.
Arguments Err {A} e.

(** How a computation ends: with a value, with a raised exception, or
    never (a task blocked for ever on the permit). *)
Inductive outcome (A : Type) :=
| Ret (a : A)
| Raise (e : pyexc)
| Block.
Arguments Ret {A} a.
Arguments Raise {A} e.
Arguments Block {A}.

Definition M (S A : Type) : Type := S → outcome A * S * list event.

Definition ret {S A} (a : A) : M S A := λ s, (Ret a, s, []).
Definition raise {S A} (e : pyexc) : M S A := λ s, (Raise e, s, []).
Definition block {S A} : M S A := λ s, (Block, s, []).
Definition emit {S} (e : event) : M S unit := λ s, (Ret (), s, [e]).

Definition bind {S A B} (m : M S A) (k : A → M S B) : M S B :=
  λ s, match m s with
       | (Ret a, s1, t1) => let '(o, s2, t2) := k a s1 in (o, s2, t1 ++ t2)
       | (Raise e, s1, t1) => (Raise e, s1, t1)
       | (Block, s1, t1) => (Block, s1, t1)
       end.

Global Instance M_ret {S} : MRet (M S) := λ A, ret.
Global Instance M_bind {S} : MBind (M S) := λ A B k m, bind m k.

(** [try: m except Exception as e: h e], for a body that raises instances
    of [Exception] only: the handler runs on whatever is raised. *)
Definition try_except {S A} (m : M S A) (h : pyexc → M S A) : M S A :=
  λ s, match m s with
       | (Raise e, s1, t1) => let '(o, s2, t2) := h e s1 in (o, s2, t1 ++ t2)
       | r => r
       end.

(** The outcome of a task as its future stores it: a result or the
    exception that ended the coroutine. *)
Definition settle {S A} (m : M S A) : M S (pyexc + A) :=
  λ s, match m s with
       | (Ret a, s1, t1) => (Ret (inr a), s1, t1)
       | (Raise e, s1, t1) => (Ret (inl e), s1, t1)
       | (Block, s1, t1) => (Block, s1, t1)
       end.

Definition logger_error {S} (msg : string) : M S unit := emit (LogError msg).
Definition logger_info {S} (msg : string) : M S unit := emit (LogInfo msg).

(** Accessors of a finished run. *)
Definition result_of {S A} (r : outcome A * S * list event) : outcome A := r.1.1.
Definition state_of {S A} (r : outcome A * S * list event) : S := r.1.2.
Definition trace_of {S A} (r : outcome A * S * list event) : list event := r.2.

(** Every event a computation can put in the trace satisfies [P]. *)
Definition emits {S A} (P : event → Prop) (m : M S A) : Prop :=
  ∀ x, Forall P (trace_of (m x)).

(** A computation that never waits for ever. *)
Definition never_blocks {S A} (m : M S A) : Prop :=
  ∀ x, result_of (m x) ≠ Block.

(** Every exception a computation can end in satisfies [Q]. *)
Definition raises_only {S A} (Q : pyexc → Prop) (m : M S A) : Prop :=
  ∀ x e, result_of (m x) = Raise e → Q e.

(** ** The host: file system, CSV reader and submission client *)

Section Program.

Context {W : Type}.

(** The program's state: the outside world and the files it has written. *)
Record state := { world : W; files : gmap string string }.

(** The collaborators of the program, left abstract.  Each answers or
    raises.  [path_exists] is [Path(p).exists()]; [read_rows] is
    [open(p, 'r', newline='')] followed by [list(csv.DictReader(f,
    delimiter=';'))]; [open_write] is [open(p, 'w', newline='')].

    Modelled from the spec: [SecretVaultSubmitter] is imported from
    [sv_secret_submitter], absent from the sources.  The spec gives its
    boundary: constructed with a stage and a headless flag, entered and
    left as a scoped resource, with [authenticate] and [submit_secret]
    answering true or false.  Leaving the scope releases the resources and
    does not swallow an exception in flight. *)
Record Host := {
  path_exists : string → W → answer bool;
  read_rows : string → W → answer (list record);
  open_write : string → W → answer unit;
  sv_init : string → bool → W → answer unit * W;
  sv_enter : W → answer unit * W;
  sv_authenticate : pyval → pyval → W → answer bool * W;
  sv_submit_secret : SecretSubmission → W → answer bool * W;
  sv_exit : W → answer unit * W
}.

Context (host : Host).

Definition returned {A} (a : answer A) : outcome A :=
  match a with
  | Ok v => Ret v
  | Err e => Raise e
  end.

(** A read-only probe of the world. *)
Definition probe {A} (f : W → answer A) : M state A :=
  λ s, (returned (f (world s)), s, []).

(** A call into the submission client: it is recorded in the trace and may
    change the world. *)
Definition call {A} (ev : event) (f : W → answer A * W) : M state A :=
  λ s, (returned (f (world s)).1,
        {| world := (f (world s)).2; files := files s |}, [ev]).

(** ** validate_file_path *)

(** [Path(file_path)] needs a string. *)
Definition Path (file_path : pyval) : M state string :=
  match file_path with
  | PyStr p => mret p
  | PyNone => raise (TypeError "expected str, bytes or os.PathLike object, not NoneType")
  end.

Definition validate_file_path (file_path : pyval) : M state bool :=
  path ← Path file_path;
  found ← probe (path_exists host path);
  if negb found
  then logger_error ("File not found: " +:+ fmt file_path) ;; mret false
  else mret true.

(** ** process_csv_record *)

(** [record.get(field)] and [record[field]]. *)
Definition get (r : record) (field : string) : pyval :=
  default PyNone (r !! field).

Definition subscript (r : record) (field : string) : M state pyval :=
  match r !! field with
  | Some v => mret v
  | None => raise (KeyError field)
  end.

Definition required_fields : list string :=
  ["username"; "password"; "secret_type"; "secret"; "secret_desc"; "keepic"].

(** The loop over the required fields; [k] is the code after the loop,
    reached when no iteration returns. *)
Fixpoint check_required (r : record) (fields : list string)
    (k : M state bool) : M state bool :=
  match fields with
  | [] => k
  | field :: rest =>
      if negb (truthy (get r field))
      then logger_error ("Missing required field: " +:+ field) ;; mret false
      else check_required r rest k
  end.

(** [v in ['file', 'image']] *)
Definition in_file_image (v : pyval) : bool :=
  bool_decide (v = PyStr "file") || bool_decide (v = PyStr "image").

(** Lines 36-42: the submission object built from the row. *)
Definition make_submission (r : record) : M state SecretSubmission :=
  n ← subscript r "secret_desc";
  ty ← subscript r "secret_type";
  ty' ← subscript r "secret_type";
  tx ← (if bool_decide (ty' = PyStr "text") then subscript r "secret"
        else mret (PyStr ""));
  kp ← subscript r "keepic";
  mret {| name := n; type := ty; tag := PyStr ""; text := tx; keepic_path := kp |}.

(** [with SecretVaultSubmitter(stage=stage, headless=headless) as sub: body]:
    construct, enter, run the body, leave on every exit path. *)
Definition with_submitter {A} (stage : string) (headless : bool)
    (body : M state A) : M state A :=
  call (SvInit stage headless) (sv_init host stage headless) ;;
  call SvEnter (sv_enter host) ;;
  r ← settle body;
  call SvExit (sv_exit host) ;;
  match r with
  | inr a => mret a
  | inl e => raise e
  end.

(** Lines 45-59: the scoped use of the submission client. *)
Definition submit (r : record) (stage : string) (secret : SecretSubmission)
    : M state bool :=
  with_submitter stage false (
    u ← subscript r "username";
    logger_info ("Attempting to protect secret for user: " +:+ fmt u) ;;
    u ← subscript r "username";
    p ← subscript r "password";
    ok ← call (SvAuthenticate u p) (sv_authenticate host u p);
    if negb ok then
      u ← subscript r "username";
      logger_error ("Authentication failed for user: " +:+ fmt u) ;;
      mret false
    else
      sent ← call (SvSubmit secret) (sv_submit_secret host secret);
      if (sent : bool) then
        u ← subscript r "username";
        logger_info ("Successfully protected secret for user: " +:+ fmt u) ;;
        mret true
      else
        u ← subscript r "username";
        logger_error ("Failed to protect secret for user: " +:+ fmt u) ;;
        mret false).

(** Lines 20-59: the body of the [try]. *)
Definition process_csv_record_try (r : record) (stage : string) : M state bool :=
  check_required r required_fields (
    ty ← subscript r "secret_type";
    ok ← (if in_file_image ty
          then s ← subscript r "secret"; validate_file_path s
          else mret true);
    if negb ok then mret false else
    kp ← subscript r "keepic";
    ok ← validate_file_path kp;
    if negb ok then mret false else
    secret ← make_submission r;
    submit r stage secret).

(** Lines 61-63: the handler. *)
Definition process_csv_record_except (r : record) (e : pyexc) : M state bool :=
  u ← subscript r "username";
  logger_error ("Error processing record for user " +:+ fmt u +:+ ": " +:+ exc_str e) ;;
  mret false.

(** [async with semaphore]: the body of a task holds no suspension point,
    so a task that has taken the permit runs to its release before any
    other task is resumed, and every task finds the semaphore at the value
    it was created with.  With a value of zero the task waits for a
    release that never comes. *)
Definition async_with (semaphore : Z) {A} (body : M state A) : M state A :=
  if decide (0 < semaphore) then body else block.

Definition process_csv_record (r : record) (semaphore : Z) (stage : string)
    : M state bool :=
  async_with semaphore
    (try_except (process_csv_record_try r stage) (process_csv_record_except r)).

(** ** process_secrets_file *)

(** The counters of a run: the dict [results]. *)
Record results := { total : Z; success : Z; failed : Z }.

(** A local mutable object beside the program's state. *)
Definition lift {L A} (m : M state A) : M (L * state) A :=
  λ ls, let '(o, s, t) := m ls.2 in (o, (ls.1, s), t).
Definition get_local {L} : M (L * state) L :=
  λ ls, (Ret ls.1, ls, []).
Definition modify_local {L} (f : L → L) : M (L * state) unit :=
  λ ls, (Ret (), (f ls.1, ls.2), []).
Definition with_local {L A} (l0 : L) (m : M (L * state) A) : M state A :=
  λ s, let '(o, ls, t) := m (l0, s) in (o, ls.2, t).

(** [asyncio.Semaphore(value)] refuses a negative value. *)
Definition Semaphore {S} (value : Z) : M S Z :=
  if decide (value < 0)
  then raise (ValueError "Semaphore initial value must be >= 0")
  else mret value.

(** The order in which the event loop starts the tasks it was given is
    the loop's choice; [picks] encodes it: at each turn the loop takes the
    task at position [pick mod remaining] of those not yet started. *)
Fixpoint event_loop_order {A} (n : nat) (picks : list nat) (todo : list A)
    : list A :=
  match n with
  | O => []
  | S n' =>
      let i := (hd 0 picks `mod` length todo)%nat in
      match todo !! i with
      | Some t => t :: event_loop_order n' (tl picks) (delete i todo)
      | None => []
      end
  end.

(** The event loop runs every task to its end, one after the other, and
    keeps what each ended with. *)
Fixpoint run_tasks (tasks : list (M state bool)) : M state (list (pyexc + bool)) :=
  match tasks with
  | [] => mret []
  | t :: rest =>
      fut ← settle t;
      futs ← run_tasks rest;
      mret (fut :: futs)
  end.

(** [await result]: the task's value, or its exception raised again. *)
Definition await {S A} (fut : pyexc + A) : M S A :=
  match fut with
  | inr a => mret a
  | inl e => raise e
  end.

Definition incr_success (r : results) : results :=
  {| total := total r; success := success r + 1; failed := failed r |}.
Definition incr_failed (r : results) : results :=
  {| total := total r; success := success r; failed := failed r + 1 |}.
Definition set_total (n : Z) (r : results) : results :=
  {| total := n; success := success r; failed := failed r |}.

(** Lines 91-100: the loop over the results in completion order. *)
Fixpoint count_completed (futs : list (pyexc + bool)) (completed : Z)
    : M (results * state) unit :=
  match futs with
  | [] => mret ()
  | fut :: rest =>
      let completed := completed + 1 in
      ok ← await fut;
      (if (ok : bool) then modify_local incr_success else modify_local incr_failed) ;;
      res ← get_local;
      logger_info ("Progress: " +:+ pretty completed +:+ "/" +:+ pretty (total res)
                   +:+ " (Success: " +:+ pretty (success res)
                   +:+ ", Failed: " +:+ pretty (failed res) +:+ ")") ;;
      count_completed rest completed
  end.

(** Lines 75-100: the body of the [try].  [asyncio.as_completed] hands
    every task to the event loop; since no task suspends once it holds the
    permit, each one is finished the first time the loop starts it, and
    the loop of lines 92-100 then meets the results in the order in which
    the tasks were run. *)
Definition process_secrets_file_try (picks : list nat) (csv_file : string)
    (max_concurrent : Z) (stage : string) : M (results * state) unit :=
  records ← lift (probe (read_rows host csv_file));
  modify_local (set_total (Z.of_nat (length records))) ;;
  semaphore ← Semaphore max_concurrent;
  let tasks := (λ r, process_csv_record r semaphore stage) <$> records in
  futs ← lift (run_tasks (event_loop_order (length tasks) picks tasks));
  count_completed futs 0.

Definition process_secrets_file (picks : list nat) (csv_file : string)
    (max_concurrent : Z) (stage : string) : M state results :=
  with_local {| total := 0; success := 0; failed := 0 |} (
    try_except
      (process_secrets_file_try picks csv_file max_concurrent stage)
      (λ e, logger_error ("Error processing CSV file: " +:+ exc_str e)) ;;
    get_local).

(** ** generate_sample_csv *)

Definition DQUOTE : ascii := Ascii.ascii_of_nat 34.
Definition CR : ascii := Ascii.ascii_of_nat 13.
Definition LF : ascii := Ascii.ascii_of_nat 10.
Definition SEMI : ascii := Ascii.ascii_of_nat 59.
Definition CRLF : string := String CR (String LF "").

(** [csv.writer(f, delimiter=';')]: minimal quoting, a quote character
    inside a quoted field is doubled, rows end in CR LF. *)
Definition csv_special (c : ascii) : bool :=
  bool_decide (c = SEMI) || bool_decide (c = DQUOTE)
  || bool_decide (c = CR) || bool_decide (c = LF).

Fixpoint csv_has_special (field : string) : bool :=
  match field with
  | EmptyString => false
  | String c rest => csv_special c || csv_has_special rest
  end.

Fixpoint csv_double_quotes (field : string) : string :=
  match field with
  | EmptyString => EmptyString
  | String c rest =>
      if bool_decide (c = DQUOTE)
      then String DQUOTE (String DQUOTE (csv_double_quotes rest))
      else String c (csv_double_quotes rest)
  end.

Definition csv_field (field : string) : string :=
  if csv_has_special field
  then String DQUOTE (csv_double_quotes field +:+ String DQUOTE "")
  else field.

Fixpoint csv_join (fields : list string) : string :=
  match fields with
  | [] => ""
  | [f] => f
  | f :: rest => f +:+ String SEMI (csv_join rest)
  end.

Definition csv_line (row : list string) : string :=
  match row with
  | [""] => String DQUOTE (String DQUOTE "")
  | _ => csv_join (csv_field <$> row)
  end.

(** Writing to the file store.  The store is keyed by the path as it is
    spelled: two spellings of one file are two keys. *)
Definition update_file (path : string) (f : string → string) : M state unit :=
  λ s, (Ret (),
        {| world := world s;
           files := <[path := f (default "" (files s !! path))]> (files s) |},
        []).

(** [open(output_file, 'w', newline='')]: the file is created or emptied. *)
Definition open_w (output_file : string) : M state unit :=
  probe (open_write host output_file) ;;
  update_file output_file (λ _, "").

Definition writerow (output_file : string) (row : list string) : M state unit :=
  update_file output_file (λ old, old +:+ csv_line row +:+ CRLF).

(** [for x in xs: body x] *)
Fixpoint for_each {S A} (xs : list A) (body : A → M S unit) : M S unit :=
  match xs with
  | [] => mret ()
  | x :: rest => body x ;; for_each rest body
  end.

(** [range(n)] *)
Definition range (n : Z) : list Z := seqZ 0 n.

Definition sample_row (i : Z) : list string :=
  [ "user" +:+ pretty (i + 1);
    "password" +:+ pretty (i + 1);
    "text";
    "This is secret #" +:+ pretty (i + 1);
    "Sample Secret " +:+ pretty (i + 1);
    "./keepic.jpg" ].

Definition generate_sample_csv (output_file : string) (num_records : Z)
    : M state unit :=
  try_except (
    let headers :=
      ["username"; "password"; "secret_type"; "secret"; "secret_desc"; "keepic"] in
    open_w output_file ;;
    writerow output_file headers ;;
    for_each (range num_records) (λ i, writerow output_file (sample_row i)) ;;
    logger_info ("Generated sample CSV file: " +:+ output_file))
  (λ e, logger_error ("Error generating sample CSV: " +:+ exc_str e)).

(** ** main_async *)

(** The namespace [parser.parse_args()] returns for the five options
    declared on lines 138-146; the parsing itself is [argparse]'s. *)
Record Namespace := {
  arg_csv : string;
  arg_generate_sample : bool;
  arg_num_records : Z;
  arg_max_concurrent : Z;
  arg_stage : string
}.

(** Lines 150-161, after the arguments are parsed. *)
Definition main_async (picks : list nat) (args : Namespace) : M state unit :=
  if arg_generate_sample args then
    generate_sample_csv (arg_csv args) (arg_num_records args)
  else
    logger_info "Starting secret protection process" ;;
    res ← process_secrets_file picks (arg_csv args) (arg_max_concurrent args)
            (arg_stage args);
    logger_info "=== Final Results ===" ;;
    logger_info ("Total records processed: " +:+ pretty (total res)) ;;
    logger_info ("Successful protections: " +:+ pretty (success res)) ;;
    logger_info ("Failed protections: " +:+ pretty (failed res)) ;;
    logger_info "Complete logs available in: secret_protection.log".

(** ** Vocabulary of the properties *)

(** A field that is absent from the row, [None], or the empty string. *)
Definition missing_or_empty (r : record) (field : string) : Prop :=
  r !! field = None ∨ r !! field = Some PyNone ∨ r !! field = Some (PyStr "").

Definition no_adapter_events (t : list event) : Prop :=
  Forall (λ e, adapter_event e = false) t.

(** [v] is a path that [Path.exists] finds in the world of [s]. *)
Definition existing_path (s : state) (v : pyval) : Prop :=
  ∃ p, v = PyStr p ∧ path_exists host p (world s) = Ok true.


(** A row that passes the validation of [process_csv_record]. *)
Definition valid_record (s : state) (r : record) : Prop :=
  Forall (λ field, truthy (get r field) = true) required_fields
  ∧ (in_file_image (get r "secret_type") = true → existing_path s (get r "secret"))
  ∧ existing_path s (get r "keepic").



(** The submission object of lines 36-42, read off the row. *)
Definition submission_of (r : record) : SecretSubmission :=
  {| name := get r "secret_desc";
     type := get r "secret_type";
     tag := PyStr "";
     text := if bool_decide (get r "secret_type" = PyStr "text")
             then get r "secret" else PyStr "";
     keepic_path := get r "keepic" |}.

End Program.

(** ** Exceptions that are not instances of Exception *)

Module Signals.

(** The built-in classes that derive from [BaseException] without deriving
    from [Exception]; [asyncio.CancelledError] is one of them since
    Python 3.8. *)
Definition base_only_classes : list string :=
  ["KeyboardInterrupt"; "SystemExit"; "GeneratorExit"; "CancelledError"].

(** [isinstance(e, Exception)], read off the name of the class of [e]; a
    class that is not in the list is taken to derive from [Exception]. *)
Definition is_Exception (e : pyexc) : bool :=
  negb (bool_decide (exc_class e ∈ base_only_classes)).

(** [try: m except Exception as e: h e] with the test of the class: an
    exception that is not an instance of [Exception] passes the handler
    and goes on to the caller. *)
Definition try_except {S A} (m : M S A) (h : pyexc → M S A) : M S A :=
  λ s, match m s with
       | (Raise e, s1, t1) =>
           if is_Exception e
           then let '(o, s2, t2) := h e s1 in (o, s2, t1 ++ t2)
           else (Raise e, s1, t1)
       | r => r
       end.

Section Handlers.

Context {W : Type} (host : @Host W).

(** Lines 17-63, the handler of line 61 with its class. *)
Definition process_csv_record (r : record) (semaphore : Z) (stage : string)
    : M state bool :=
  async_with semaphore
    (try_except (process_csv_record_try host r stage) (process_csv_record_except r)).

(** [KeyboardInterrupt] and [SystemExit] stop the event loop. *)
Definition stops_loop (e : pyexc) : bool :=
  bool_decide (exc_class e ∈ ["KeyboardInterrupt"; "SystemExit"]).

(** A task keeps what ended it, a value or an exception of any class, for
    whoever awaits it.  When what ended it is [KeyboardInterrupt] or
    [SystemExit], the task raises it again into the loop. *)
Definition raise_into_loop {S A} (fut : pyexc + A) : M S unit :=
  match fut with
  | inl e => if stops_loop e then raise e else mret ()
  | inr _ => mret ()
  end.

(** The event loop runs the tasks one after the other.  An exception
    raised into the loop stops it: the tasks that were not yet started
    never run, and the exception leaves the run. *)
Fixpoint run_tasks (tasks : list (M (@state W) bool))
    : M (@state W) (list (pyexc + bool)) :=
  match tasks with
  | [] => mret []
  | t :: rest =>
      fut ← settle t;
      raise_into_loop fut ;;
      futs ← run_tasks rest;
      mret (fut :: futs)
  end.

(** Lines 75-100.  [await] on line 93 raises again what the task kept. *)
Definition process_secrets_file_try (picks : list nat) (csv_file : string)
    (max_concurrent : Z) (stage : string) : M (results * state) unit :=
  records ← lift (probe (read_rows host csv_file));
  modify_local (set_total (Z.of_nat (length records))) ;;
  semaphore ← Semaphore max_concurrent;
  let tasks := (λ r, process_csv_record r semaphore stage) <$> records in
  futs ← lift (run_tasks (event_loop_order (length tasks) picks tasks));
  count_completed futs 0.

(** Lines 66-105, the handler of line 102 with its class. *)
Definition process_secrets_file (picks : list nat) (csv_file : string)
    (max_concurrent : Z) (stage : string) : M state results :=
  with_local {| total := 0; success := 0; failed := 0 |} (
    try_except
      (process_secrets_file_try picks csv_file max_concurrent stage)
      (λ e, logger_error ("Error processing CSV file: " +:+ exc_str e)) ;;
    get_local).

(** Lines 108-131, the handler of line 130 with its class. *)
Definition generate_sample_csv (output_file : string) (num_records : Z)
    : M state unit :=
  try_except (
    let headers :=
      ["username"; "password"; "secret_type"; "secret"; "secret_desc"; "keepic"] in
    open_w host output_file ;;
    writerow output_file headers ;;
    for_each (range num_records) (λ i, writerow output_file (sample_row i)) ;;
    logger_info ("Generated sample CSV file: " +:+ output_file))
  (λ e, logger_error ("Error generating sample CSV: " +:+ exc_str e)).

(** Lines 150-161. *)
Definition main_async (picks : list nat) (args : Namespace) : M state unit :=
  if arg_generate_sample args then
    generate_sample_csv (arg_csv args) (arg_num_records args)
  else
    logger_info "Starting secret protection process" ;;
    res ← process_secrets_file picks (arg_csv args) (arg_max_concurrent args)
            (arg_stage args);
    logger_info "=== Final Results ===" ;;
    logger_info ("Total records processed: " +:+ pretty (total res)) ;;
    logger_info ("Successful protections: " +:+ pretty (success res)) ;;
    logger_info ("Failed protections: " +:+ pretty (failed res)) ;;
    logger_info "Complete logs available in: secret_protection.log".

(** A host whose collaborators raise instances of [Exception] only. *)
Definition raises_errors_only : Prop :=
  (∀ p w e, path_exists host p w = Err e → is_Exception e = true)
  ∧ (∀ p w e, read_rows host p w = Err e → is_Exception e = true)
  ∧ (∀ p w e, open_write host p w = Err e → is_Exception e = true)
  ∧ (∀ stage headless w e,
       (sv_init host stage headless w).1 = Err e → is_Exception e = true)
  ∧ (∀ w e, (sv_enter host w).1 = Err e → is_Exception e = true)
  ∧ (∀ u p w e, (sv_authenticate host u p w).1 = Err e → is_Exception e = true)
  ∧ (∀ secret w e, (sv_submit_secret host secret w).1 = Err e → is_Exception e = true)
  ∧ (∀ w e, (sv_exit host w).1 = Err e → is_Exception e = true).

End Handlers.

End Signals.


(** ** The permit: tasks of the batch as a transition system *)

(** The control points of one task of [process_csv_record]. *)
Inductive phase :=
| Waiting          (* created, not yet inside [async with semaphore] *)
| Validating       (* lines 19-42, the permit is held *)
| Authenticating   (* lines 45-49, inside the submitter's scope *)
| Submitting       (* lines 53-59, past [authenticate] *)
| Finished.        (* the [async with] block is left, the permit is back *)

Definition holds_permit (p : phase) : bool :=
  match p with
  | Validating | Authenticating | Submitting => true
  | Waiting | Finished => false
  end.

Definition past_authenticate (p : phase) : bool :=
  match p with
  | Submitting => true
  | _ => false
  end.

(** What a task does when the event loop resumes it.  The moves of the
    tasks may interleave in any way, which covers every schedule the event
    loop can produce. *)
Inductive action :=
| Acquire    (* [semaphore.acquire()] succeeds *)
| Advance    (* the next statement group is entered *)
| Release.   (* any exit of the block: return, exception, fall through *)

Record loop_state := { sem_value : Z; phases : list phase }.

Definition start (max_concurrent : Z) (n : nat) : loop_state :=
  {| sem_value := max_concurrent; phases := replicate n Waiting |}.

(** One move of task [i]; [None] when the move is not possible. *)
Definition step (st : loop_state) (i : nat) (a : action) : option loop_state :=
  match phases st !! i, a with
  | Some Waiting, Acquire =>
      if decide (0 < sem_value st)
      then Some {| sem_value := sem_value st - 1;
                   phases := <[i := Validating]> (phases st) |}
      else None
  | Some Validating, Advance =>
      Some {| sem_value := sem_value st;
              phases := <[i := Authenticating]> (phases st) |}
  | Some Authenticating, Advance =>
      Some {| sem_value := sem_value st;
              phases := <[i := Submitting]> (phases st) |}
  | Some p, Release =>
      if holds_permit p
      then Some {| sem_value := sem_value st + 1;
                   phases := <[i := Finished]> (phases st) |}
      else None
  | _, _ => None
  end.

Fixpoint steps (st : loop_state) (moves : list (nat * action)) : option loop_state :=
  match moves with
  | [] => Some st
  | (i, a) :: rest =>
      match step st i a with
      | Some st' => steps st' rest
      | None => None
      end
  end.

Fixpoint count_phases (f : phase → bool) (l : list phase) : Z :=
  match l with
  | [] => 0
  | p :: rest => (if f p then 1 else 0) + count_phases f rest
  end.

(** The permits handed out and the permits left add up to the bound. *)
Definition permits_balance (max_concurrent : Z) (st : loop_state) : Prop :=
  sem_value st + count_phases holds_permit (phases st) = max_concurrent
  ∧ 0 ≤ sem_value st.

(** ** Reading a sample file back *)

(** Whether the character [c] occurs in [s]. *)
Fixpoint occurs (c : ascii) (s : string) : bool :=
  match s with
  | EmptyString => false
  | String x rest => bool_decide (x = c) || occurs c rest
  end.

(** The lines of a file whose lines end in CR LF. *)
Fixpoint lines_from (s : string) (cur : string) : list string :=
  match s with
  | EmptyString => if decide (cur = "") then [] else [cur]
  | String c rest =>
      match rest with
      | String c' rest' =>
          if bool_decide (c = CR ∧ c' = LF)
          then cur :: lines_from rest' ""
          else lines_from rest (cur +:+ String c "")
      | EmptyString => [cur +:+ String c ""]
      end
  end.

(** The fields of a line without quoted fields. *)
Fixpoint fields_from (s : string) (cur : string) : list string :=
  match s with
  | EmptyString => [cur]
  | String c rest =>
      if bool_decide (c = SEMI)
      then cur :: fields_from rest ""
      else fields_from rest (cur +:+ String c "")
  end.

(** The bytes [generate_sample_csv] is expected to leave in the file. *)
Definition sample_file (num_records : Z) : string :=
  foldl (λ acc i, acc +:+ csv_join (sample_row i) +:+ CRLF)
        ("username;password;secret_type;secret;secret_desc;keepic" +:+ CRLF)
        (range num_records).

(** ** Counting events, reading rows *)

Fixpoint count_events (f : event → bool) (t : list event) : nat :=
  match t with
  | [] => O
  | e :: rest => ((if f e then 1 else 0) + count_events f rest)%nat
  end.

Definition is_construction (e : event) : bool :=
  match e with
  | SvInit _ _ => true
  | _ => false
  end.

Definition is_release (e : event) : bool :=
  match e with
  | SvExit => true
  | _ => false
  end.

Definition is_progress_line (e : event) : bool :=
  match e with
  | LogInfo msg => String.prefix "Progress: " msg
  | _ => false
  end.

(** The calls into the Submission Adapter among the events of a trace. *)
Fixpoint adapter_calls (t : list event) : list event :=
  match t with
  | [] => []
  | e :: rest => if adapter_event e then e :: adapter_calls rest else adapter_calls rest
  end.

(** What [csv.DictReader] yields for a line that has as many fields as
    the header: the header's names mapped to the line's fields. *)
Definition dict_row (header fields : list string) : record :=
  list_to_map (zip header (PyStr <$> fields)).

(** ** A concrete host and rows, for the examples *)

(** A world without state: only [./keepic.jpg] exists, the input file
    holds [rows], the adapter answers [auth] to [authenticate] and accepts
    every submission. *)
Definition demo_host (rows : answer (list record)) (auth : answer bool)
    : @Host unit :=
  {| path_exists := λ p _, Ok (bool_decide (p = "./keepic.jpg"));
     read_rows := λ _ _, rows;
     open_write := λ _ _, Ok ();
     sv_init := λ _ _ w, (Ok (), w);
     sv_enter := λ w, (Ok (), w);
     sv_authenticate := λ _ _ w, (auth, w);
     sv_submit_secret := λ _ w, (Ok true, w);
     sv_exit := λ w, (Ok (), w) |}.

Definition demo_state : @state unit := {| world := (); files := ∅ |}.

Definition demo_row (secret_type : string) (secret : string) : record :=
  list_to_map
    [("username", PyStr "user1"); ("password", PyStr "password1");
     ("secret_type", PyStr secret_type); ("secret", PyStr secret);
     ("secret_desc", PyStr "Sample Secret 1"); ("keepic", PyStr "./keepic.jpg")].



(** * Properties *)

Ltac munfold :=
  unfold mbind, M_bind, mret, M_ret, bind, ret, raise, block, emit,
    logger_error, logger_info, try_except, settle, probe, call,
    result_of, state_of, trace_of in *.

(** ** Laws of the monad *)

Section Monad.

Context {S A B : Type}.
Implicit Types (m : M S A) (k : A → M S B) (x : S).

Lemma bind_run m k x a x1 t1 :
  m x = (Ret a, x1, t1) →
  (m ≫= k) x = ((k a x1).1.1, (k a x1).1.2, t1 ++ (k a x1).2).
Proof.
  intros H. unfold mbind, M_bind, bind. rewrite H.
  by destruct (k a x1) as [[??]?].
Qed.

Lemma bind_ret_l (a : A) k x : (mret a ≫= k) x = k a x.
Proof. munfold. by destruct (k a x) as [[??]?]. Qed.

Lemma bind_raise m k x e x1 t1 :
  m x = (Raise e, x1, t1) → (m ≫= k) x = (Raise e, x1, t1).
Proof. intros H. munfold. by rewrite H. Qed.

Lemma emits_ret (P : event → Prop) (a : A) : emits P (mret a : M S A).
Proof. intros x. constructor. Qed.

Lemma emits_raise (P : event → Prop) e : emits P (raise e : M S A).
Proof. intros x. constructor. Qed.

Lemma emits_block (P : event → Prop) : emits P (block : M S A).
Proof. intros x. constructor. Qed.

Lemma emits_bind (P : event → Prop) m k :
  emits P m → (∀ a, emits P (k a)) → emits P (m ≫= k).
Proof.
  intros Hm Hk x. specialize (Hm x). munfold.
  destruct (m x) as [[[a|e|] x1] t1]; simpl in *; try done.
  specialize (Hk a x1). destruct (k a x1) as [[o x2] t2]; simpl in *.
  by apply Forall_app.
Qed.

Lemma emits_try_except (P : event → Prop) m (h : pyexc → M S A) :
  emits P m → (∀ e, emits P (h e)) → emits P (try_except m h).
Proof.
  intros Hm Hh x. specialize (Hm x). munfold.
  destruct (m x) as [[[a|e|] x1] t1]; simpl in *; try done.
  specialize (Hh e x1). destruct (h e x1) as [[o x2] t2]; simpl in *.
  by apply Forall_app.
Qed.

Lemma emits_settle (P : event → Prop) m : emits P m → emits P (settle m).
Proof.
  intros Hm x. specialize (Hm x). munfold.
  by destruct (m x) as [[[a|e|] x1] t1].
Qed.

Lemma never_blocks_ret (a : A) : never_blocks (mret a : M S A).
Proof. by intros x. Qed.

Lemma never_blocks_raise e : never_blocks (raise e : M S A).
Proof. by intros x. Qed.

Lemma never_blocks_bind m k :
  never_blocks m → (∀ a, never_blocks (k a)) → never_blocks (m ≫= k).
Proof.
  intros Hm Hk x. specialize (Hm x). munfold.
  destruct (m x) as [[[a|e|] x1] t1]; simpl in *; try done.
  specialize (Hk a x1). by destruct (k a x1) as [[o x2] t2].
Qed.

Lemma never_blocks_try_except m (h : pyexc → M S A) :
  never_blocks m → (∀ e, never_blocks (h e)) → never_blocks (try_except m h).
Proof.
  intros Hm Hh x. specialize (Hm x). munfold.
  destruct (m x) as [[[a|e|] x1] t1]; simpl in *; try done.
  specialize (Hh e x1). by destruct (h e x1) as [[o x2] t2].
Qed.

Lemma never_blocks_settle m : never_blocks m → never_blocks (settle m).
Proof.
  intros Hm x. specialize (Hm x). munfold.
  by destruct (m x) as [[[a|e|] x1] t1].
Qed.

End Monad.

Lemma emits_emit {S} (P : event → Prop) ev : P ev → emits P (emit ev : M S unit).
Proof. intros H x. by repeat constructor. Qed.

Lemma never_blocks_emit {S} ev : never_blocks (emit ev : M S unit).
Proof. by intros x. Qed.

Section Correctness.

Context {W : Type} (host : @Host W).
Implicit Types (r : record) (s : @state W) (stage : string).

Lemma truthy_get r field :
  truthy (get r field) = true ↔ ∃ u, r !! field = Some (PyStr u) ∧ u ≠ "".
Proof.
  unfold get. split.
  - destruct (r !! field) as [[|u]|]; simpl; try discriminate.
    destruct (decide (u = "")); [discriminate|]. eauto.
  - intros (u & -> & Hu). simpl. by destruct (decide (u = "")).
Qed.

Lemma missing_or_empty_falsy r field :
  missing_or_empty r field ↔ truthy (get r field) = false.
Proof.
  unfold missing_or_empty, get. split.
  - by intros [->|[->| ->]].
  - destruct (r !! field) as [[|u]|]; simpl; auto.
    destruct (decide (u = "")) as [->|]; [auto|discriminate].
Qed.

Lemma subscript_get r field s :
  is_Some (r !! field) →
  @subscript W r field s = (Ret (get r field), s, []).
Proof. intros [v Hv]. unfold subscript, get. by rewrite Hv. Qed.

Lemma check_required_pass r fields (k : M (@state W) bool) :
  Forall (λ field, truthy (get r field) = true) fields →
  check_required r fields k = k.
Proof.
  induction 1 as [|f fs Hf _ IH]; simpl; [done|]. by rewrite Hf.
Qed.

Lemma check_required_stop r fields (k : M (@state W) bool) s field :
  field ∈ fields → truthy (get r field) = false →
  ∃ f0, f0 ∈ fields ∧ truthy (get r f0) = false ∧
    check_required r fields k s
    = (Ret false, s, [LogError ("Missing required field: " +:+ f0)]).
Proof.
  induction fields as [|f fs IH]; intros Hin Hf.
  - by apply elem_of_nil in Hin.
  - simpl. destruct (truthy (get r f)) eqn:Hg; simpl.
    + apply elem_of_cons in Hin as [->|Hin]; [congruence|].
      destruct (IH Hin Hf) as (f0 & ? & ? & ?).
      exists f0. split_and!; [by right|done..].
    + exists f. split_and!; [by left|done|done].
Qed.

Lemma bind_subscript {B} r field (k : pyval → M (@state W) B) s :
  is_Some (r !! field) →
  (subscript r field ≫= k) s = k (get r field) s.
Proof.
  intros H. unfold mbind, M_bind, bind. rewrite subscript_get by done.
  by destruct (k (get r field) s) as [[??]?].
Qed.

Lemma required_lookups r :
  Forall (λ field, truthy (get r field) = true) required_fields →
  ∀ field, field ∈ required_fields → is_Some (r !! field).
Proof.
  intros Hall field Hin. rewrite Forall_forall in Hall.
  apply Hall, truthy_get in Hin as (u & -> & _). eauto.
Qed.

Lemma process_csv_record_missing r semaphore stage s field :
  0 < semaphore → field ∈ required_fields → truthy (get r field) = false →
  ∃ f0, f0 ∈ required_fields ∧ truthy (get r f0) = false ∧
    process_csv_record host r semaphore stage s
    = (Ret false, s, [LogError ("Missing required field: " +:+ f0)]).
Proof.
  intros Hsem Hin Hf.
  unfold process_csv_record, async_with, try_except, process_csv_record_try.
  destruct (decide (0 < semaphore)); [|lia].
  edestruct check_required_stop as (f0 & ? & ? & ->); [done..|].
  eauto.
Qed.

(** [validate_file_path] answers true exactly on an existing path; it
    touches neither the state nor the adapter. *)
Lemma validate_file_path_cases (v : pyval) s :
  (existing_path host s v ∧ validate_file_path host v s = (Ret true, s, []))
  ∨ (¬ existing_path host s v ∧
     ∃ o t, validate_file_path host v s = (o, s, t) ∧ no_adapter_events t
       ∧ (o = Ret false ∨ ∃ e, o = Raise e)).
Proof.
  unfold validate_file_path, Path, existing_path. destruct v as [|p].
  - right. split; [by intros (? & ? & ?)|].
    eexists _, _. split; [reflexivity|]. split; [constructor|eauto].
  - munfold. simpl.
    destruct (path_exists host p (world s)) as [[|]|e] eqn:Hp; simpl.
    + left. eauto.
    + right. split; [intros (? & [= <-] & ?); congruence|].
      eexists _, _. split; [reflexivity|]. split; [repeat constructor|eauto].
    + right. split; [intros (? & [= <-] & ?); congruence|].
      eexists _, _. split; [reflexivity|]. split; [constructor|eauto].
Qed.

Lemma make_submission_run r s :
  Forall (λ field, truthy (get r field) = true) required_fields →
  @make_submission W r s = (Ret (submission_of r), s, []).
Proof.
  intros Hall. pose proof (required_lookups r Hall) as Hl.
  unfold make_submission, submission_of.
  do 3 (rewrite bind_subscript by (apply Hl; set_solver)).
  destruct (bool_decide (get r "secret_type" = PyStr "text")).
  - do 2 (rewrite bind_subscript by (apply Hl; set_solver)). done.
  - rewrite bind_ret_l. rewrite bind_subscript by (apply Hl; set_solver). done.
Qed.

(** Past the required fields, a row either is valid and goes on to the
    submitter with the submission read off it, or ends in false or in an
    exception before the adapter is touched. *)
Lemma process_csv_record_try_cases r stage s :
  Forall (λ field, truthy (get r field) = true) required_fields →
  (valid_record host s r
   ∧ process_csv_record_try host r stage s = submit host r stage (submission_of r) s)
  ∨ (¬ valid_record host s r ∧
     ∃ o t, process_csv_record_try host r stage s = (o, s, t)
       ∧ no_adapter_events t ∧ (o = Ret false ∨ ∃ e, o = Raise e)).
Proof.
  intros Hall. unfold process_csv_record_try, valid_record.
  rewrite check_required_pass by done.
  pose proof (required_lookups r Hall) as Hl.
  rewrite bind_subscript by (apply Hl; set_solver).
  assert (Hsecret :
    (in_file_image (get r "secret_type") = true → existing_path host s (get r "secret"))
    ∧ (if in_file_image (get r "secret_type")
       then subscript r "secret" ≫= λ p, validate_file_path host p
       else mret true) s = (Ret true, s, [])
    ∨ ¬ (in_file_image (get r "secret_type") = true → existing_path host s (get r "secret"))
      ∧ ∃ o t, (if in_file_image (get r "secret_type")
       then subscript r "secret" ≫= λ p, validate_file_path host p
       else mret true) s = (o, s, t) ∧ no_adapter_events t
       ∧ (o = Ret false ∨ ∃ e, o = Raise e)).
  { destruct (in_file_image (get r "secret_type")).
    - rewrite bind_subscript by (apply Hl; set_solver).
      destruct (validate_file_path_cases (get r "secret") s) as [[? ->]|[Hno ?]];
        [by left|right].
      split; [|done]. intros Hex. by apply Hno, Hex.
    - left. done. }
  destruct Hsecret as [[Hs Hrun]|[Hs (o & t & Hrun & Ht & Ho)]].
  2:{ right. split; [tauto|]. exists o, t. split; [|done].
      destruct Ho as [->|[e ->]].
      - rewrite (bind_run _ _ _ _ _ _ Hrun). simpl. by rewrite app_nil_r.
      - by rewrite (bind_raise _ _ _ _ _ _ Hrun). }
  rewrite (bind_run _ _ _ _ _ _ Hrun). simpl.
  rewrite bind_subscript by (apply Hl; set_solver).
  destruct (validate_file_path_cases (get r "keepic") s)
    as [[Hk Hrun']|[Hk (o & t & Hrun' & Ht & Ho)]].
  2:{ right. split; [tauto|]. exists o, t. split; [|done].
      destruct Ho as [->|[e ->]].
      - rewrite (bind_run _ _ _ _ _ _ Hrun'). simpl. by rewrite app_nil_r.
      - by rewrite (bind_raise _ _ _ _ _ _ Hrun'). }
  left. split; [done|].
  rewrite (bind_run _ _ _ _ _ _ Hrun'). simpl.
  rewrite (bind_run _ _ _ _ _ _ (make_submission_run r s Hall)). simpl.
  by destruct (submit host r stage (submission_of r) s) as [[??]?].
Qed.

Lemma emits_probe {A} (P : event → Prop) (f : W → answer A) :
  emits P (probe f).
Proof. intros s. constructor. Qed.

Lemma emits_call {A} (P : event → Prop) ev (f : W → answer A * W) :
  P ev → emits P (call ev f).
Proof. intros H s. by repeat constructor. Qed.

Lemma emits_subscript (P : event → Prop) r field :
  emits P (@subscript W r field).
Proof. intros s. unfold subscript. destruct (r !! field); constructor. Qed.

Lemma emits_logger_error (P : event → Prop) msg :
  P (LogError msg) → emits P (logger_error msg : M (@state W) unit).
Proof. apply emits_emit. Qed.

Lemma emits_logger_info (P : event → Prop) msg :
  P (LogInfo msg) → emits P (logger_info msg : M (@state W) unit).
Proof. apply emits_emit. Qed.

(** One step of a syntax-directed proof of [emits]. *)
Ltac emits_step :=
  lazymatch goal with
  | |- emits _ (_ ≫= _) => apply emits_bind; [|intros ?]
  | |- emits _ (mret _) => apply emits_ret
  | |- emits _ (raise _) => apply emits_raise
  | |- emits _ (subscript _ _) => apply emits_subscript
  | |- emits _ (probe _) => apply emits_probe
  | |- emits _ (call _ _) => apply emits_call
  | |- emits _ (logger_error _) => apply emits_logger_error
  | |- emits _ (logger_info _) => apply emits_logger_info
  | |- emits _ (settle _) => apply emits_settle
  | |- emits _ (try_except _ _) => apply emits_try_except; [|intros ?]
  | |- emits _ (if ?b then _ else _) => destruct b
  | |- emits _ (match ?x with _ => _ end) => destruct x
  end.

Lemma emits_validate_file_path (P : event → Prop) v :
  (∀ msg, P (LogError msg)) → emits P (validate_file_path host v).
Proof.
  intros HP. unfold validate_file_path, Path. repeat emits_step; auto.
Qed.

Lemma emits_check_required (P : event → Prop) r fields k :
  (∀ msg, P (LogError msg)) → emits P k →
  emits P (@check_required W r fields k).
Proof.
  intros HP Hk. induction fields as [|f fs IH]; simpl; [done|].
  repeat emits_step; auto.
Qed.

Lemma emits_submit (P : event → Prop) r stage secret :
  (∀ msg, P (LogError msg)) → (∀ msg, P (LogInfo msg)) →
  P (SvInit stage false) → P SvEnter → P SvExit →
  (∀ u p, P (SvAuthenticate u p)) → P (SvSubmit secret) →
  emits P (submit host r stage secret).
Proof.
  intros. unfold submit, with_submitter. repeat emits_step; auto.
Qed.

Lemma process_csv_record_except_run r e s :
  is_Some (r !! "username") →
  @process_csv_record_except W r e s
  = (Ret false, s,
     [LogError ("Error processing record for user " +:+ fmt (get r "username")
                +:+ ": " +:+ exc_str e)]).
Proof.
  intros H. unfold process_csv_record_except. by rewrite bind_subscript.
Qed.

Lemma all_required_dec r :
  {Forall (λ field, truthy (get r field) = true) required_fields}
  + {∃ field, field ∈ required_fields ∧ truthy (get r field) = false}.
Proof.
  destruct (decide (Forall (λ field, truthy (get r field) = true) required_fields))
    as [H|H]; [by left|right].
  apply not_Forall_Exists in H; [|apply _].
  apply Exists_exists in H as (f & ? & Hf).
  exists f. split; [done|]. simpl in Hf. by destruct (truthy (get r f)).
Qed.

(** A row that is not valid ends in false with the state untouched and no
    call into the adapter. *)
Lemma process_csv_record_invalid r semaphore stage s :
  0 < semaphore → ¬ valid_record host s r →
  ∃ t, process_csv_record host r semaphore stage s = (Ret false, s, t)
       ∧ no_adapter_events t.
Proof.
  intros Hsem Hinv. destruct (all_required_dec r) as [Hall|(f & Hin & Hf)].
  - destruct (process_csv_record_try_cases r stage s Hall)
      as [[? _]|[_ (o & t & Hrun & Ht & Ho)]]; [done|].
    unfold process_csv_record, async_with, try_except.
    destruct (decide (0 < semaphore)); [|lia]. rewrite Hrun.
    destruct Ho as [->|[e ->]]; [eauto|].
    rewrite process_csv_record_except_run
      by (apply required_lookups; [done|set_solver]).
    eexists. split; [reflexivity|].
    apply Forall_app. split; [done|]. by repeat constructor.
  - destruct (process_csv_record_missing r semaphore stage s f)
      as (f0 & _ & _ & ->); [done..|].
    eexists. split; [reflexivity|]. by repeat constructor.
Qed.

(** C2: a row in which one of the six required fields is missing or empty
    makes [process_csv_record] return false, and the run makes no call
    into the Submission Adapter (it is neither constructed nor invoked). *)
Theorem missing_field_is_rejected r semaphore stage s field :
  0 < semaphore → field ∈ required_fields → missing_or_empty r field →
  result_of (process_csv_record host r semaphore stage s) = Ret false
  ∧ no_adapter_events (trace_of (process_csv_record host r semaphore stage s)).
Proof.
  intros Hsem Hin Hmiss. apply missing_or_empty_falsy in Hmiss.
  destruct (process_csv_record_invalid r semaphore stage s Hsem) as (t & -> & Ht).
  - intros (Hall & _). rewrite Forall_forall in Hall.
    apply Hall in Hin. congruence.
  - done.
Qed.



Lemma never_blocks_probe {A} (f : W → answer A) : never_blocks (probe f).
Proof. intros s. munfold. simpl. by destruct (f (world s)). Qed.

Lemma never_blocks_call {A} ev (f : W → answer A * W) : never_blocks (call ev f).
Proof. intros s. munfold. simpl. by destruct (f (world s)) as [[?|?] ?]. Qed.

Lemma never_blocks_subscript r field : never_blocks (@subscript W r field).
Proof. intros s. unfold subscript. by destruct (r !! field). Qed.

(** One step of a syntax-directed proof of [never_blocks]. *)
Ltac never_blocks_step :=
  lazymatch goal with
  | |- never_blocks (_ ≫= _) => apply never_blocks_bind; [|intros ?]
  | |- never_blocks (mret _) => apply never_blocks_ret
  | |- never_blocks (raise _) => apply never_blocks_raise
  | |- never_blocks (subscript _ _) => apply never_blocks_subscript
  | |- never_blocks (probe _) => apply never_blocks_probe
  | |- never_blocks (call _ _) => apply never_blocks_call
  | |- never_blocks (logger_error _) => apply never_blocks_emit
  | |- never_blocks (logger_info _) => apply never_blocks_emit
  | |- never_blocks (settle _) => apply never_blocks_settle
  | |- never_blocks (try_except _ _) => apply never_blocks_try_except; [|intros ?]
  | |- never_blocks (if ?b then _ else _) => destruct b
  | |- never_blocks (match ?x with _ => _ end) => destruct x
  end.

Lemma never_blocks_check_required r fields k :
  never_blocks k → never_blocks (@check_required W r fields k).
Proof.
  intros Hk. induction fields as [|f fs IH]; simpl; [done|].
  repeat never_blocks_step; auto.
Qed.

(** Once the permit is taken nothing in a task waits. *)
Lemma never_blocks_process_csv_record r semaphore stage :
  0 < semaphore → never_blocks (process_csv_record host r semaphore stage).
Proof.
  intros Hsem. unfold process_csv_record, async_with.
  destruct (decide (0 < semaphore)); [|lia].
  apply never_blocks_try_except.
  - unfold process_csv_record_try. apply never_blocks_check_required.
    unfold validate_file_path, Path, make_submission, submit, with_submitter.
    repeat never_blocks_step.
  - intros e. unfold process_csv_record_except. repeat never_blocks_step.
Qed.

Lemma process_csv_record_try_missing r stage s field :
  field ∈ required_fields → truthy (get r field) = false →
  ∃ f0, f0 ∈ required_fields ∧ truthy (get r f0) = false ∧
    process_csv_record_try host r stage s
    = (Ret false, s, [LogError ("Missing required field: " +:+ f0)]).
Proof. intros. unfold process_csv_record_try. by eapply check_required_stop. Qed.

(** [process_csv_record] never ends in an exception. *)
Lemma process_csv_record_no_raise r semaphore stage s e :
  result_of (process_csv_record host r semaphore stage s) ≠ Raise e.
Proof.
  unfold process_csv_record, async_with.
  destruct (decide (0 < semaphore)) as [Hsem|]; [|done].
  destruct (all_required_dec r) as [Hall|(f & Hin & Hf)].
  - unfold try_except.
    destruct (process_csv_record_try host r stage s) as [[[b|e'|] s1] t1]; try done.
    rewrite process_csv_record_except_run
      by (apply required_lookups; [done|set_solver]).
    done.
  - pose proof (process_csv_record_missing r semaphore stage s f Hsem Hin Hf)
      as (f0 & _ & _ & Hrun).
    unfold process_csv_record, async_with in Hrun.
    destruct (decide (0 < semaphore)); [|lia]. by rewrite Hrun.
Qed.

(** With the permit available a task always ends with a boolean. *)
Lemma process_csv_record_returns r semaphore stage s :
  0 < semaphore →
  ∃ b, result_of (process_csv_record host r semaphore stage s) = Ret b.
Proof.
  intros Hsem.
  pose proof (process_csv_record_no_raise r semaphore stage s) as Hno.
  pose proof (never_blocks_process_csv_record r semaphore stage Hsem s) as Hnb.
  destruct (result_of (process_csv_record host r semaphore stage s)) as [b|e|];
    [eauto|by destruct (Hno e)|done].
Qed.

(** The event loop gets a boolean from every task it runs. *)
Lemma run_tasks_all_return (tasks : list (M (@state W) bool)) s :
  Forall (λ t, ∀ s', ∃ b, result_of (t s') = Ret b) tasks →
  ∃ bs, result_of (run_tasks tasks s) = Ret (inr <$> bs)
        ∧ length bs = length tasks.
Proof.
  intros Hall. revert s. induction Hall as [|t ts Ht _ IH]; intros s; simpl.
  - exists []. done.
  - destruct (Ht s) as [b Hb]. munfold.
    destruct (t s) as [[o s1] t1]; simpl in *. subst o.
    destruct (IH s1) as (bs & Hbs & Hlen).
    destruct (run_tasks ts s1) as [[o s2] t2]; simpl in *. subst o.
    exists (b :: bs). simpl. by rewrite Hlen.
Qed.

(** A valid row goes through the [try] straight to the submitter. *)
Lemma process_csv_record_valid r semaphore stage s :
  0 < semaphore → valid_record host s r →
  process_csv_record host r semaphore stage s
  = try_except (submit host r stage (submission_of r))
      (process_csv_record_except r) s.
Proof.
  intros Hsem Hvalid. pose proof Hvalid as (Hall & _).
  unfold process_csv_record, async_with, try_except.
  destruct (decide (0 < semaphore)); [|lia].
  destruct (process_csv_record_try_cases r stage s Hall) as [[_ ->]|[? _]]; done.
Qed.

Lemma bind_trace_head {A B} (m : M (@state W) A) (k : A → M (@state W) B) s ev t :
  trace_of (m s) = ev :: t →
  ∃ t', trace_of ((m ≫= k) s) = ev :: t'.
Proof.
  unfold trace_of, mbind, M_bind, bind.
  destruct (m s) as [[[a|e|] s1] t1]; simpl; intros ->; eauto.
  destruct (k a s1) as [[??]?]. simpl. eauto.
Qed.

(** The first thing the scoped use of the submitter does is to construct
    it, visibly. *)
Lemma submit_trace_head r stage secret s :
  ∃ t, trace_of (submit host r stage secret s) = SvInit stage false :: t.
Proof.
  unfold submit, with_submitter. by eapply bind_trace_head.
Qed.

Lemma try_except_trace_head {A} (m : M (@state W) A) h s ev t :
  trace_of (m s) = ev :: t →
  ∃ t', trace_of (try_except m h s) = ev :: t'.
Proof.
  unfold try_except, trace_of.
  destruct (m s) as [[[a|e|] s1] t1]; simpl; intros ->; eauto.
  destruct (h e s1) as [[??]?]. simpl. eauto.
Qed.

(** C7: for a valid row the submission handed to the adapter has the
    row's secret_desc as name, its secret_type as type, the empty string
    as tag, its keepic as keepic_path, and as text the row's secret
    exactly when secret_type is [text], the empty string otherwise. *)
Theorem submission_projects_record r semaphore stage s :
  0 < semaphore → valid_record host s r →
  ∃ sub,
    make_submission r s = (Ret sub, s, [])
    ∧ process_csv_record host r semaphore stage s
      = try_except (submit host r stage sub) (process_csv_record_except r) s
    ∧ (∀ x, SvSubmit x ∈ trace_of (process_csv_record host r semaphore stage s)
            → x = sub)
    ∧ name sub = get r "secret_desc"
    ∧ type sub = get r "secret_type"
    ∧ tag sub = PyStr ""
    ∧ keepic_path sub = get r "keepic"
    ∧ (get r "secret_type" = PyStr "text" → text sub = get r "secret")
    ∧ (get r "secret_type" ≠ PyStr "text" → text sub = PyStr "")
    ∧ (text sub = get r "secret" ↔ get r "secret_type" = PyStr "text").
Proof.
  intros Hsem Hvalid. pose proof Hvalid as (Hall & _).
  exists (submission_of r). split_and!; try done.
  - by apply make_submission_run.
  - by apply process_csv_record_valid.
  - rewrite process_csv_record_valid by done. intros x Hx.
    assert (Hem : emits (λ e, ∀ y, e = SvSubmit y → y = submission_of r)
              (try_except (submit host r stage (submission_of r))
                 (process_csv_record_except r))).
    { apply emits_try_except.
      - apply emits_submit; try done. by intros y [= <-].
      - intros e. unfold process_csv_record_except. repeat emits_step. done. }
    specialize (Hem s). rewrite Forall_forall in Hem. by apply (Hem _ Hx).
  - simpl. intros ->. by rewrite bool_decide_eq_true_2.
  - simpl. intros Hne. by rewrite bool_decide_eq_false_2.
  - simpl. case_bool_decide as Hty; [done|]. split; [|done].
    intros Hempty. rewrite Forall_forall in Hall.
    assert (Htruthy : truthy (get r "secret") = true) by (apply Hall; set_solver).
    by rewrite <- Hempty in Htruthy.
Qed.

(** C9: a row with the six required fields non-empty, an existing keepic
    and a secret_type that is none of [text], [file], [image] passes
    validation (no membership test is made on secret_type); the adapter is
    constructed for it, and the submission built for it has the empty
    string as text. *)
Theorem unknown_secret_type_is_accepted r semaphore stage s ty :
  0 < semaphore →
  (∀ field, field ∈ required_fields → ¬ missing_or_empty r field) →
  existing_path host s (get r "keepic") →
  get r "secret_type" = PyStr ty → ty ∉ ["text"; "file"; "image"] →
  valid_record host s r
  ∧ (∃ sub,
       make_submission r s = (Ret sub, s, [])
       ∧ type sub = PyStr ty ∧ text sub = PyStr ""
       ∧ process_csv_record host r semaphore stage s
         = try_except (submit host r stage sub) (process_csv_record_except r) s)
  ∧ (∃ t, trace_of (process_csv_record host r semaphore stage s)
          = SvInit stage false :: t).
Proof.
  intros Hsem Hfields Hkeepic Hty Hother.
  assert (Hall : Forall (λ field, truthy (get r field) = true) required_fields).
  { apply Forall_forall. intros f Hf. specialize (Hfields f Hf).
    rewrite missing_or_empty_falsy in Hfields. by destruct (truthy (get r f)). }
  assert (Hnf : in_file_image (get r "secret_type") = false).
  { rewrite Hty. unfold in_file_image.
    rewrite !bool_decide_eq_false_2; [done|intros [= ->]; set_solver..]. }
  assert (Hvalid : valid_record host s r).
  { split_and!; [done| |done]. by rewrite Hnf. }
  split_and!; [done| |].
  - exists (submission_of r). split_and!.
    + by apply make_submission_run.
    + done.
    + simpl. rewrite Hty. rewrite bool_decide_eq_false_2; [done|].
      intros [= ->]. set_solver.
    + by apply process_csv_record_valid.
  - rewrite process_csv_record_valid by done.
    destruct (submit_trace_head r stage (submission_of r) s) as [t Ht].
    by eapply try_except_trace_head.
Qed.

(** Whatever the row, the only construction of the adapter a task can
    make is for the run's stage with the headless flag off. *)
Lemma emits_process_csv_record (P : event → Prop) r semaphore stage :
  (∀ e, adapter_event e = false → P e) →
  P (SvInit stage false) → P SvEnter → P SvExit →
  (∀ u p, P (SvAuthenticate u p)) → (∀ x, P (SvSubmit x)) →
  emits P (process_csv_record host r semaphore stage).
Proof.
  intros Hlog. intros.
  unfold process_csv_record, async_with.
  destruct (decide (0 < semaphore)); [|apply emits_block].
  apply emits_try_except.
  - unfold process_csv_record_try.
    apply emits_check_required; [by intros; apply Hlog|].
    unfold make_submission.
    repeat first
      [ apply emits_validate_file_path; [by intros; apply Hlog]
      | apply emits_submit; try done; by intros; apply Hlog
      | emits_step ].
  - intros e. unfold process_csv_record_except.
    repeat emits_step. by apply Hlog.
Qed.

(** *** The batch *)

(** Whatever the event loop picks, it runs each task once. *)
Lemma event_loop_order_Permutation {A} (picks : list nat) (todo : list A) :
  event_loop_order (length todo) picks todo ≡ₚ todo.
Proof.
  remember (length todo) as n eqn:Hn. revert picks todo Hn.
  induction n as [|n IH]; intros picks todo Hn; simpl.
  - by destruct todo.
  - assert (Hlt : (hd 0 picks `mod` length todo < length todo)%nat).
    { apply Nat.mod_upper_bound. lia. }
    destruct (lookup_lt_is_Some_2 _ _ Hlt) as [t Ht]. rewrite Ht.
    etrans; [|symmetry; apply (delete_Permutation todo _ t Ht)].
    constructor. apply IH.
    rewrite length_delete by eauto. lia.
Qed.

Lemma lift_run {L A} (m : M (@state W) A) (l : L) s :
  lift m (l, s) = ((m s).1.1, (l, (m s).1.2), (m s).2).
Proof. unfold lift. simpl. by destruct (m s) as [[??]?]. Qed.

(** The loop of lines 91-100 over tasks that all returned a boolean: each
    one adds one to exactly one of the two counters. *)
Lemma count_completed_run (bs : list bool) completed (res : results) s :
  ∃ res' t,
    count_completed (inr <$> bs) completed (res, s) = (Ret (), (res', s), t)
    ∧ total res' = total res
    ∧ success res' + failed res' = success res + failed res + Z.of_nat (length bs)
    ∧ no_adapter_events t.
Proof.
  revert completed res. induction bs as [|b bs IH]; intros completed res; simpl.
  - exists res, []. split_and!; [done|done|lia|constructor].
  - rewrite bind_ret_l.
    set (res1 := if b then incr_success res else incr_failed res).
    destruct (IH (completed + 1) res1) as (res' & t & Hrun & Htot & Hsum & Ht).
    munfold. unfold modify_local, get_local.
    unfold fmap in Hrun.
    destruct b; subst res1; simpl in Hrun, Htot, Hsum |- *; rewrite Hrun; simpl;
      (eexists _, _; split_and!;
       [reflexivity|by rewrite Htot|rewrite Hsum; lia|by constructor]).
Qed.

(** With a positive bound and a readable file, the run returns counters
    whose total is the number of rows and whose two other counters add up
    to it. *)
Lemma process_secrets_file_counts picks csv_file max_concurrent stage s rows :
  0 < max_concurrent →
  read_rows host csv_file (world s) = Ok rows →
  ∃ res,
    result_of (process_secrets_file host picks csv_file max_concurrent stage s)
    = Ret res
    ∧ total res = Z.of_nat (length rows)
    ∧ success res + failed res = total res.
Proof.
  intros Hmax Hread.
  unfold process_secrets_file, with_local, process_secrets_file_try.
  set (tasks := (λ r, process_csv_record host r max_concurrent stage) <$> rows).
  destruct (run_tasks_all_return
              (event_loop_order (length tasks) picks tasks) s)
    as (bs & Hbs & Hlen).
  { rewrite event_loop_order_Permutation.
    apply Forall_fmap, Forall_forall. intros r _ s1. simpl.
    by apply process_csv_record_returns. }
  rewrite event_loop_order_Permutation in Hlen.
  unfold tasks in Hlen. rewrite length_fmap in Hlen.
  munfold. unfold lift at 1, modify_local at 1, Semaphore. simpl.
  rewrite Hread. simpl.
  destruct (decide (max_concurrent < 0)); [lia|]. simpl.
  fold tasks.
  rewrite lift_run. unfold result_of in Hbs.
  destruct (run_tasks (event_loop_order (length tasks) picks tasks) s)
    as [[o s1] t1]; simpl in *. subst o.
  destruct (count_completed_run bs 0
              (set_total (Z.of_nat (length rows))
                 {| total := 0; success := 0; failed := 0 |}) s1)
    as (res' & t & Hrun & Htot & Hsum & _).
  rewrite Hrun. simpl. unfold get_local. simpl.
  exists res'. split_and!; [done|done|]. rewrite Hsum, Htot, Hlen. simpl. lia.
Qed.

(** With a negative bound the semaphore cannot be built: the run ends in
    the handler with [total] already set and nothing counted. *)
Lemma process_secrets_file_negative_bound picks csv_file max_concurrent stage s rows :
  max_concurrent < 0 →
  read_rows host csv_file (world s) = Ok rows →
  process_secrets_file host picks csv_file max_concurrent stage s
  = (Ret {| total := Z.of_nat (length rows); success := 0; failed := 0 |}, s,
     [LogError "Error processing CSV file: Semaphore initial value must be >= 0"]).
Proof.
  intros Hmax Hread.
  unfold process_secrets_file, with_local, process_secrets_file_try, Semaphore.
  munfold. unfold lift at 1, modify_local at 1. simpl. rewrite Hread. simpl.
  by destruct (decide (max_concurrent < 0)); [|lia].
Qed.

Lemma emits_lift {L A} (P : event → Prop) (m : M (@state W) A) :
  emits P m → emits P (lift m : M (L * state) A).
Proof.
  intros Hm [l s]. specialize (Hm s). rewrite lift_run. done.
Qed.

Lemma emits_with_local {L A} (P : event → Prop) (l0 : L)
    (m : M (L * @state W) A) :
  emits P m → emits P (with_local l0 m).
Proof.
  intros Hm s. specialize (Hm (l0, s)). unfold with_local.
  by destruct (m (l0, s)) as [[??]?].
Qed.

Lemma emits_run_tasks (P : event → Prop) (tasks : list (M (@state W) bool)) :
  Forall (emits P) tasks → emits P (run_tasks tasks).
Proof.
  induction 1 as [|t ts Ht _ IH]; simpl; repeat emits_step; auto.
Qed.

Lemma emits_count_completed (P : event → Prop) futs completed :
  (∀ msg, P (LogInfo msg)) →
  emits P (count_completed futs completed : M (results * @state W) unit).
Proof.
  intros HP. revert completed.
  induction futs as [|fut futs IH]; intros completed; simpl.
  - apply emits_ret.
  - unfold await.
    repeat first [ by intros x; constructor | apply IH | emits_step ]; auto.
Qed.

(** The events of a whole run are log lines and the events of its tasks. *)
Lemma emits_process_secrets_file (P : event → Prop) picks csv_file max_concurrent stage :
  (∀ e, adapter_event e = false → P e) →
  P (SvInit stage false) → P SvEnter → P SvExit →
  (∀ u p, P (SvAuthenticate u p)) → (∀ x, P (SvSubmit x)) →
  emits P (process_secrets_file host picks csv_file max_concurrent stage).
Proof.
  intros Hlog. intros.
  unfold process_secrets_file, process_secrets_file_try, Semaphore.
  apply emits_with_local.
  repeat first
    [ apply emits_lift
    | apply emits_count_completed; by intros; apply Hlog
    | by intros x; constructor
    | by apply emits_emit, Hlog
    | emits_step ].
  apply emits_run_tasks.
  rewrite event_loop_order_Permutation.
  apply Forall_fmap, Forall_forall. intros r _. simpl.
  by apply emits_process_csv_record.
Qed.

(** C10: every construction of the Submission Adapter, in a task and in a
    whole run, is for the run's stage with the headless flag false. *)
Theorem adapter_is_never_headless :
  (∀ r semaphore stage s stage' headless,
     SvInit stage' headless ∈ trace_of (process_csv_record host r semaphore stage s) →
     headless = false ∧ stage' = stage)
  ∧ (∀ picks csv_file max_concurrent stage s stage' headless,
       SvInit stage' headless
         ∈ trace_of (process_secrets_file host picks csv_file max_concurrent stage s) →
       headless = false ∧ stage' = stage).
Proof.
  split.
  - intros r semaphore stage s stage' headless Hin.
    assert (Hem : emits (λ e, ∀ st h, e = SvInit st h → h = false ∧ st = stage)
                    (process_csv_record host r semaphore stage)).
    { apply emits_process_csv_record; try done.
      - by intros [] ?.
      - by intros st h [= <- <-]. }
    specialize (Hem s). rewrite Forall_forall in Hem. by eapply Hem.
  - intros picks csv_file max_concurrent stage s stage' headless Hin.
    assert (Hem : emits (λ e, ∀ st h, e = SvInit st h → h = false ∧ st = stage)
                    (process_secrets_file host picks csv_file max_concurrent stage)).
    { apply emits_process_secrets_file; try done.
      - by intros [] ?.
      - by intros st h [= <- <-]. }
    specialize (Hem s). rewrite Forall_forall in Hem. by eapply Hem.
Qed.

(** *** The sample file *)

Lemma string_app_cons c (a b : string) : String c a +:+ b = String c (a +:+ b).
Proof. reflexivity. Qed.

Lemma string_app_nil_r (a : string) : a +:+ "" = a.
Proof. induction a as [|c a IH]; [done|]. by rewrite string_app_cons, IH. Qed.

Lemma string_app_assoc (a b c : string) : (a +:+ b) +:+ c = a +:+ (b +:+ c).
Proof. induction a as [|x a IH]; [done|]. by rewrite !string_app_cons, IH. Qed.

Lemma csv_has_special_app (a b : string) :
  csv_has_special (a +:+ b) = csv_has_special a || csv_has_special b.
Proof.
  induction a as [|c a IH]; [done|].
  rewrite string_app_cons. simpl. by rewrite IH, orb_assoc.
Qed.

Lemma csv_special_digit x : csv_special (pretty_N_char x) = false.
Proof. unfold pretty_N_char. by repeat case_match. Qed.

Lemma csv_has_special_pretty_N_go x (acc : string) :
  csv_has_special acc = false → csv_has_special (pretty_N_go x acc) = false.
Proof.
  revert acc. induction (N.lt_wf_0 x) as [x _ IH]; intros acc Hacc.
  destruct (decide (x = 0)%N) as [->|Hx]; [by rewrite pretty_N_go_0|].
  rewrite pretty_N_go_step by lia. apply IH.
  - apply N.div_lt; lia.
  - simpl. by rewrite csv_special_digit.
Qed.

(** The decimal notation of a natural number needs no quoting. *)
Lemma csv_has_special_pretty (z : Z) :
  0 ≤ z → csv_has_special (pretty z) = false.
Proof.
  intros Hz. destruct z as [|p|p]; [done| |lia].
  unfold pretty, pretty_Z, pretty, pretty_positive, pretty, pretty_N.
  case_decide; [done|]. by apply csv_has_special_pretty_N_go.
Qed.

Lemma csv_field_plain (field : string) :
  csv_has_special field = false → csv_field field = field.
Proof. unfold csv_field. by intros ->. Qed.

Lemma sample_row_plain i :
  0 ≤ i → Forall (λ field, csv_has_special field = false) (sample_row i).
Proof.
  intros Hi. unfold sample_row.
  repeat constructor; rewrite ?csv_has_special_app, ?csv_has_special_pretty by lia;
    done.
Qed.

(** No field of a sample row is quoted. *)
Lemma csv_line_sample_row i :
  0 ≤ i → csv_line (sample_row i) = csv_join (sample_row i).
Proof.
  intros Hi. pose proof (sample_row_plain i Hi) as Hplain.
  unfold sample_row in *. unfold csv_line.
  repeat match goal with
         | H : Forall _ (_ :: _) |- _ => apply Forall_cons in H as [? H]
         end.
  simpl. by rewrite !csv_field_plain.
Qed.

Lemma writerow_run (output_file : string) row (w : W)
    (fs : gmap string string) (old : string) :
  writerow output_file row {| world := w; files := <[output_file := old]> fs |}
  = (Ret (),
     {| world := w;
        files := <[output_file := old +:+ csv_line row +:+ CRLF]> fs |}, []).
Proof.
  unfold writerow, update_file. simpl.
  by rewrite lookup_insert_eq, insert_insert_eq.
Qed.

(** The loop of lines 118-126 appends one line per index. *)
Lemma for_each_writerow (output_file : string) (xs : list Z) (w : W)
    (fs : gmap string string) (old : string) :
  Forall (λ i, 0 ≤ i) xs →
  for_each xs (λ i, writerow output_file (sample_row i))
    {| world := w; files := <[output_file := old]> fs |}
  = (Ret (),
     {| world := w;
        files := <[output_file :=
                     foldl (λ acc i, acc +:+ csv_join (sample_row i) +:+ CRLF) old xs]>
                 fs |}, []).
Proof.
  intros Hxs. revert old. induction Hxs as [|i xs Hi _ IH]; intros old.
  - done.
  - cbn [for_each foldl].
    rewrite (bind_run _ _ _ _ _ _ (writerow_run output_file _ w fs old)).
    rewrite IH, csv_line_sample_row by done. done.
Qed.

Lemma range_nonneg n : Forall (λ i, 0 ≤ i) (range n).
Proof.
  apply Forall_forall. intros i Hi. unfold range in Hi.
  apply elem_of_seqZ in Hi. lia.
Qed.

(** What [generate_sample_csv] does when the file can be opened. *)
Lemma generate_sample_csv_run output_file num_records s :
  open_write host output_file (world s) = Ok () →
  generate_sample_csv host output_file num_records s
  = (Ret (),
     {| world := world s;
        files := <[output_file := sample_file num_records]> (files s) |},
     [LogInfo ("Generated sample CSV file: " +:+ output_file)]).
Proof.
  intros Hopen. unfold generate_sample_csv, open_w, try_except.
  assert (Hopened :
    (probe (open_write host output_file) ;; update_file output_file (λ _, "")) s
    = (Ret (), {| world := world s; files := <[output_file := ""]> (files s) |}, [])).
  { munfold. simpl. by rewrite Hopen. }
  rewrite (bind_run _ _ _ _ _ _ Hopened).
  rewrite (bind_run _ _ _ _ _ _ (writerow_run output_file _ _ _ _)).
  rewrite (bind_run _ _ _ _ _ _
             (for_each_writerow output_file _ _ _ _ (range_nonneg num_records))).
  done.
Qed.

Lemma occurs_app c (a b : string) :
  occurs c (a +:+ b) = occurs c a || occurs c b.
Proof.
  induction a as [|x a IH]; [done|].
  rewrite string_app_cons. simpl. by rewrite IH, orb_assoc.
Qed.

Lemma occurs_plain c (a : string) :
  csv_special c = true → csv_has_special a = false → occurs c a = false.
Proof.
  intros Hc. induction a as [|x a IH]; [done|]. simpl.
  intros [Hx Ha]%orb_false_elim. rewrite (IH Ha), orb_false_r.
  apply bool_decide_eq_false_2. intros ->. congruence.
Qed.

Lemma lines_from_line (a cur rest : string) :
  occurs CR a = false →
  lines_from (a +:+ String CR (String LF rest)) cur
  = (cur +:+ a) :: lines_from rest "".
Proof.
  revert cur. induction a as [|x a IH]; intros cur Ha.
  - cbn. by rewrite string_app_nil_r.
  - simpl in Ha. apply orb_false_elim in Ha as [Hx Ha].
    apply bool_decide_eq_false_1 in Hx.
    rewrite string_app_cons.
    assert (Hstep : ∀ tl, tl ≠ "" →
              lines_from (String x tl) cur = lines_from tl (cur +:+ String x "")).
    { intros [|y tl] Htl; [done|]. cbn [lines_from].
      rewrite bool_decide_eq_false_2; [done|]. by intros [? _]. }
    rewrite Hstep by (by destruct a).
    rewrite (IH _ Ha). by rewrite string_app_assoc.
Qed.

Lemma fields_from_last (a cur : string) :
  occurs SEMI a = false → fields_from a cur = [cur +:+ a].
Proof.
  revert cur. induction a as [|x a IH]; intros cur Ha.
  - cbn. by rewrite string_app_nil_r.
  - simpl in Ha. apply orb_false_elim in Ha as [Hx Ha].
    cbn [fields_from]. rewrite Hx, (IH _ Ha). by rewrite string_app_assoc.
Qed.

Lemma fields_from_field (a cur rest : string) :
  occurs SEMI a = false →
  fields_from (a +:+ String SEMI rest) cur = (cur +:+ a) :: fields_from rest "".
Proof.
  revert cur. induction a as [|x a IH]; intros cur Ha.
  - cbn. by rewrite string_app_nil_r.
  - simpl in Ha. apply orb_false_elim in Ha as [Hx Ha].
    rewrite string_app_cons. cbn [fields_from].
    rewrite Hx, (IH _ Ha). by rewrite string_app_assoc.
Qed.

(** Splitting a line of unquoted fields gives the fields back. *)
Lemma fields_from_csv_join (row : list string) :
  row ≠ [] → Forall (λ field, csv_has_special field = false) row →
  fields_from (csv_join row) "" = row.
Proof.
  intros Hne Hrow. induction Hrow as [|f fs Hf Hfs IH]; [done|].
  destruct fs as [|g fs].
  - simpl. by rewrite fields_from_last by by apply occurs_plain.
  - change (csv_join (f :: g :: fs)) with (f +:+ String SEMI (csv_join (g :: fs))).
    rewrite fields_from_field by by apply occurs_plain.
    by rewrite IH.
Qed.

Lemma csv_join_no_CR (row : list string) :
  Forall (λ field, csv_has_special field = false) row →
  occurs CR (csv_join row) = false.
Proof.
  induction 1 as [|f fs Hf Hfs IH]; [done|].
  destruct fs as [|g fs].
  - simpl. by apply occurs_plain.
  - change (csv_join (f :: g :: fs)) with (f +:+ String SEMI (csv_join (g :: fs))).
    rewrite occurs_app. cbn [occurs]. rewrite IH, (occurs_plain CR f) by done.
    done.
Qed.

Lemma foldl_append {A} (g : A → string) (init : string) (xs : list A) :
  foldl (λ acc i, acc +:+ g i) init xs
  = init +:+ foldr (λ i acc, g i +:+ acc) "" xs.
Proof.
  revert init. induction xs as [|x xs IH]; intros init; simpl.
  - by rewrite string_app_nil_r.
  - by rewrite IH, string_app_assoc.
Qed.

Lemma crlf_app (rest : string) : CRLF +:+ rest = String CR (String LF rest).
Proof. reflexivity. Qed.

Lemma lines_from_rows (xs : list Z) :
  Forall (λ i, 0 ≤ i) xs →
  lines_from (foldr (λ i acc, (csv_join (sample_row i) +:+ CRLF) +:+ acc) "" xs) ""
  = (λ i, csv_join (sample_row i)) <$> xs.
Proof.
  induction 1 as [|i xs Hi _ IH]; [done|]. cbn [foldr fmap list_fmap].
  rewrite string_app_assoc, crlf_app.
  rewrite lines_from_line by (by apply csv_join_no_CR, sample_row_plain).
  by rewrite IH.
Qed.

(** The lines of the expected file: the header, then one line per row. *)
Lemma lines_from_sample_file num_records :
  lines_from (sample_file num_records) ""
  = "username;password;secret_type;secret;secret_desc;keepic"
    :: ((λ i, csv_join (sample_row i)) <$> range num_records).
Proof.
  unfold sample_file.
  rewrite (foldl_append (λ i, csv_join (sample_row i) +:+ CRLF)).
  rewrite string_app_assoc, crlf_app.
  rewrite lines_from_line by done.
  by rewrite lines_from_rows by apply range_nonneg.
Qed.

(** C8: for an output path that can be opened and [N >= 0],
    [generate_sample_csv] leaves in the file the header line
    [username;password;secret_type;secret;secret_desc;keepic] followed by
    [N] lines, [N + 1] lines in all, semicolon-delimited, each row with
    secret_type [text] and the fixed keepic path; the content depends on
    [N] only, so it replaces whatever the file held and a second run with
    the same arguments leaves the same bytes. *)
Theorem sample_csv_is_generated output_file num_records s :
  0 ≤ num_records →
  open_write host output_file (world s) = Ok () →
  result_of (generate_sample_csv host output_file num_records s) = Ret ()
  ∧ files (state_of (generate_sample_csv host output_file num_records s)) !! output_file
    = Some (sample_file num_records)
  ∧ lines_from (sample_file num_records) ""
    = "username;password;secret_type;secret;secret_desc;keepic"
      :: ((λ i, csv_join (sample_row i)) <$> range num_records)
  ∧ length (lines_from (sample_file num_records) "") = S (Z.to_nat num_records)
  ∧ (∀ line, line ∈ tail (lines_from (sample_file num_records) "") →
       length (fields_from line "") = 6%nat
       ∧ fields_from line "" !! 2%nat = Some "text"
       ∧ fields_from line "" !! 5%nat = Some "./keepic.jpg")
  ∧ files (state_of (generate_sample_csv host output_file num_records
                       (state_of (generate_sample_csv host output_file num_records s))))
      !! output_file
    = Some (sample_file num_records).
Proof.
  intros HN Hopen. rewrite !generate_sample_csv_run by done. unfold state_of, result_of.
  cbn [fst snd world files].
  rewrite lookup_insert_eq, lines_from_sample_file.
  split_and!; try done.
  - cbn [length]. unfold range. by rewrite length_fmap, length_seqZ.
  - cbn [tail]. intros line (i & -> & Hi)%list_elem_of_fmap.
    assert (0 ≤ i) by (unfold range in Hi; apply elem_of_seqZ in Hi; lia).
    rewrite fields_from_csv_join by (by try apply sample_row_plain). done.
  - apply lookup_insert_eq.
Qed.

End Correctness.

(** ** The properties at concrete inputs *)

Ltac decide_by_compute := apply (bool_decide_unpack _); vm_compute; exact I.

Lemma missing_field_is_rejected_witness :
  let host := demo_host (Ok []) (Ok true) in
  let r := delete "password" (demo_row "text" "This is secret #1") in
  (0 < 1 ∧ "password" ∈ required_fields ∧ missing_or_empty r "password")
  ∧ result_of (process_csv_record host r 1 "dev" demo_state) = Ret false
  ∧ no_adapter_events (trace_of (process_csv_record host r 1 "dev" demo_state)).
Proof.
  assert (H1 : 0 < 1) by lia.
  assert (H2 : "password" ∈ required_fields) by decide_by_compute.
  assert (H3 : missing_or_empty
                 (delete "password" (demo_row "text" "This is secret #1")) "password")
    by (left; reflexivity).
  split; [done|].
  exact (missing_field_is_rejected (demo_host (Ok []) (Ok true)) _ 1 "dev"
           demo_state "password" H1 H2 H3).
Defined.


Lemma demo_row_valid rows auth ty secret :
  ty ≠ "" → secret ≠ "" → ty ≠ "file" → ty ≠ "image" →
  valid_record (demo_host rows auth) demo_state (demo_row ty secret).
Proof.
  intros Hty Hsecret Hfile Himage. split_and!.
  - repeat constructor; try reflexivity.
    + change (get (demo_row ty secret) "secret_type") with (PyStr ty).
      simpl. by destruct (decide (ty = "")).
    + change (get (demo_row ty secret) "secret") with (PyStr secret).
      simpl. by destruct (decide (secret = "")).
  - change (get (demo_row ty secret) "secret_type") with (PyStr ty).
    unfold in_file_image.
    rewrite !bool_decide_eq_false_2 by congruence. discriminate.
  - exists "./keepic.jpg". split; reflexivity.
Qed.

Lemma submission_projects_record_witness :
  let host := demo_host (Ok []) (Ok true) in
  let r := demo_row "text" "This is secret #1" in
  let sub := {| name := PyStr "Sample Secret 1"; type := PyStr "text";
                tag := PyStr ""; text := PyStr "This is secret #1";
                keepic_path := PyStr "./keepic.jpg" |} in
  SvSubmit sub ∈ trace_of (process_csv_record host r 1 "dev" demo_state)
  ∧ ∀ x, SvSubmit x ∈ trace_of (process_csv_record host r 1 "dev" demo_state)
         → x = sub.
Proof.
  assert (H1 : 0 < 1) by lia.
  assert (H2 : valid_record (demo_host (Ok []) (Ok true)) demo_state
                 (demo_row "text" "This is secret #1"))
    by (by apply demo_row_valid).
  destruct (submission_projects_record _ _ 1 "dev" _ H1 H2)
    as (sub & Hmake & _ & Honly & _).
  vm_compute in Hmake. injection Hmake as <-.
  split; [|exact Honly].
  decide_by_compute.
Defined.

Lemma unknown_secret_type_is_accepted_witness :
  let host := demo_host (Ok []) (Ok true) in
  let r := demo_row "banana" "This is secret #1" in
  valid_record host demo_state r
  ∧ (∃ sub,
       make_submission r demo_state = (Ret sub, demo_state, [])
       ∧ type sub = PyStr "banana" ∧ text sub = PyStr ""
       ∧ process_csv_record host r 1 "dev" demo_state
         = try_except (submit host r "dev" sub) (process_csv_record_except r) demo_state)
  ∧ (∃ t, trace_of (process_csv_record host r 1 "dev" demo_state)
          = SvInit "dev" false :: t).
Proof.
  apply (unknown_secret_type_is_accepted (demo_host (Ok []) (Ok true))
           (demo_row "banana" "This is secret #1") 1 "dev" demo_state "banana").
  - lia.
  - intros field Hin Hmiss. apply missing_or_empty_falsy in Hmiss.
    revert Hmiss. unfold required_fields in Hin.
    repeat (apply elem_of_cons in Hin as [->|Hin]; [by vm_compute|]).
    by apply elem_of_nil in Hin.
  - exists "./keepic.jpg". split; reflexivity.
  - reflexivity.
  - decide_by_compute.
Defined.

Lemma adapter_is_never_headless_witness :
  let host := demo_host (Ok [demo_row "text" "This is secret #1"]) (Ok true) in
  SvInit "dev" false ∈ trace_of (process_secrets_file host [] "secrets.csv" 3 "dev" demo_state)
  ∧ ∀ stage' headless,
      SvInit stage' headless
        ∈ trace_of (process_secrets_file host [] "secrets.csv" 3 "dev" demo_state) →
      headless = false ∧ stage' = "dev".
Proof.
  split; [decide_by_compute|].
  intros stage' headless.
  exact (proj2 (adapter_is_never_headless
                  (demo_host (Ok [demo_row "text" "This is secret #1"]) (Ok true)))
           [] "secrets.csv" 3 "dev" demo_state stage' headless).
Defined.

Lemma sample_csv_is_generated_witness :
  let host := demo_host (Ok []) (Ok true) in
  let run := generate_sample_csv host "sample.csv" 2 demo_state in
  files (state_of run) !! "sample.csv" = Some (sample_file 2)
  ∧ lines_from (sample_file 2) ""
    = ["username;password;secret_type;secret;secret_desc;keepic";
       "user1;password1;text;This is secret #1;Sample Secret 1;./keepic.jpg";
       "user2;password2;text;This is secret #2;Sample Secret 2;./keepic.jpg"].
Proof.
  assert (H1 : 0 ≤ 2) by lia.
  destruct (sample_csv_is_generated (demo_host (Ok []) (Ok true)) "sample.csv" 2
              demo_state H1 eq_refl) as (_ & Hfile & Hlines & _).
  split; [exact Hfile|]. rewrite Hlines. reflexivity.
Defined.

(** ** The counters of a run *)

(** C1: the counters returned by [process_secrets_file] are meant to
    satisfy [success + failed = total] after every run.  The run below
    completes and breaks it: the file holds one valid row and
    [max_concurrent] is [-1]; [total] is set to 1 on line 79, the
    construction of the semaphore on line 82 raises, the handler of line
    102 logs the error, and the counters come back as 1, 0, 0. *)
Theorem negative_bound_breaks_counters :
  let host := demo_host (Ok [demo_row "text" "This is secret #1"]) (Ok true) in
  let run := process_secrets_file host [] "secrets.csv" (-1) "dev" demo_state in
  result_of run = Ret {| total := 1; success := 0; failed := 0 |}
  ∧ trace_of run
    = [LogError "Error processing CSV file: Semaphore initial value must be >= 0"]
  ∧ ∀ res, result_of run = Ret res → success res + failed res ≠ total res.
Proof.
  split_and!; [by vm_compute..|].
  intros res Hres. vm_compute in Hres. injection Hres as <-. simpl. lia.
Qed.

(** The same file with a positive bound: the row is counted. *)
Example positive_bound_counts :
  let host := demo_host (Ok [demo_row "text" "This is secret #1"]) (Ok true) in
  result_of (process_secrets_file host [] "secrets.csv" 1 "dev" demo_state)
  = Ret {| total := 1; success := 1; failed := 0 |}.
Proof. by vm_compute. Qed.

(** ** The permit *)

Section Permit.

Implicit Types (st : loop_state) (l : list phase) (f : phase → bool).

Lemma count_phases_insert f l i p q :
  l !! i = Some p →
  count_phases f (<[i := q]> l)
  = count_phases f l - (if f p then 1 else 0) + (if f q then 1 else 0).
Proof.
  revert i. induction l as [|x l IH]; intros [|i] Hi; simplify_eq/=.
  - lia.
  - rewrite (IH i Hi). lia.
Qed.

Lemma count_phases_replicate_waiting n :
  count_phases holds_permit (replicate n Waiting) = 0.
Proof. induction n as [|n IH]; simpl; [done|]. by rewrite IH. Qed.

Lemma count_phases_past_le_holding l :
  0 ≤ count_phases past_authenticate l ≤ count_phases holds_permit l.
Proof. induction l as [|[] l IH]; simpl; lia. Qed.

Lemma start_balance max_concurrent n :
  0 ≤ max_concurrent → permits_balance max_concurrent (start max_concurrent n).
Proof.
  intros H. unfold permits_balance, start. simpl.
  rewrite count_phases_replicate_waiting. lia.
Qed.

Lemma step_balance max_concurrent st i a st' :
  permits_balance max_concurrent st → step st i a = Some st' →
  permits_balance max_concurrent st'.
Proof.
  unfold permits_balance, step. intros [Hsum Hpos] Hstep.
  destruct (phases st !! i) as [p|] eqn:Hp; [|by destruct a].
  pose proof (count_phases_past_le_holding (phases st)) as Hle.
  destruct p, a; simpl in Hstep; try discriminate;
    try (destruct (decide (0 < sem_value st)); [|discriminate]);
    simplify_eq; simpl;
    rewrite (count_phases_insert _ _ _ _ _ Hp); simpl; lia.
Qed.

Lemma steps_balance max_concurrent moves st st' :
  permits_balance max_concurrent st → steps st moves = Some st' →
  permits_balance max_concurrent st'.
Proof.
  revert st. induction moves as [|[i a] moves IH]; intros st Hinv Hrun; simpl in *.
  - by simplify_eq.
  - destruct (step st i a) as [st1|] eqn:Hstep; [|discriminate].
    eauto using step_balance.
Qed.

(** C6: in a batch run with [max_concurrent = 1], in every state the tasks
    can reach, at most one task is past the authenticate step; in general
    the number of tasks holding the permit never exceeds the size of the
    semaphore. *)
Theorem permit_bounds_tasks_in_flight max_concurrent n moves st :
  0 ≤ max_concurrent →
  steps (start max_concurrent n) moves = Some st →
  count_phases holds_permit (phases st) ≤ max_concurrent
  ∧ (max_concurrent = 1 → count_phases past_authenticate (phases st) ≤ 1).
Proof.
  intros Hmax Hrun.
  destruct (steps_balance max_concurrent moves _ st
              (start_balance max_concurrent n Hmax) Hrun) as [Hsum Hpos].
  pose proof (count_phases_past_le_holding (phases st)). lia.
Qed.

Lemma permit_bounds_tasks_in_flight_witness :
  let moves := [(0%nat, Acquire); (0%nat, Advance); (0%nat, Advance)] in
  let st := {| sem_value := 0; phases := [Submitting; Waiting] |} in
  0 ≤ 1 ∧ steps (start 1 2) moves = Some st
  ∧ step st 1 Acquire = None
  ∧ count_phases holds_permit (phases st) ≤ 1
  ∧ (1 = 1 → count_phases past_authenticate (phases st) ≤ 1).
Proof.
  split; [lia|]. split; [reflexivity|]. split; [reflexivity|].
  apply (permit_bounds_tasks_in_flight 1 2
           [(0%nat, Acquire); (0%nat, Advance); (0%nat, Advance)]);
    [lia|reflexivity].
Defined.

End Permit.

(** * Further properties of the program *)

Section Coverage.

Context {W : Type} (host : @Host W).
Implicit Types (r : record) (s : @state W) (stage : string).

(** ** The conversation of a task with the Submission Adapter *)

Ltac list_mem :=
  repeat first [apply list_elem_of_here | apply list_elem_of_further].

Lemma check_required_first r before field after (k : M (@state W) bool) s :
  Forall (λ f, truthy (get r f) = true) before →
  truthy (get r field) = false →
  check_required r (before ++ field :: after) k s
  = (Ret false, s, [LogError ("Missing required field: " +:+ field)]).
Proof.
  induction 1 as [|f fs Hf _ IH]; intros Hfield; simpl.
  - by rewrite Hfield.
  - rewrite Hf. simpl. by apply IH.
Qed.

(** X1: the required fields are tested in the order username, password,
    secret_type, secret, secret_desc, keepic; the task stops at the first
    one that is missing or empty, and its whole trace is the one error
    line naming that field. *)
Theorem first_missing_field_is_reported r semaphore stage s before field after :
  0 < semaphore →
  required_fields = before ++ field :: after →
  Forall (λ f, ¬ missing_or_empty r f) before →
  missing_or_empty r field →
  process_csv_record host r semaphore stage s
  = (Ret false, s, [LogError ("Missing required field: " +:+ field)]).
Proof.
  intros Hsem Hsplit Hbefore Hfield.
  unfold process_csv_record, async_with, try_except, process_csv_record_try.
  destruct (decide (0 < semaphore)); [|lia].
  rewrite Hsplit, check_required_first; [done| |by apply missing_or_empty_falsy].
  eapply Forall_impl; [done|]. intros f Hf. simpl in Hf.
  rewrite missing_or_empty_falsy in Hf. by destruct (truthy (get r f)).
Qed.

(** The runs of the scoped use of the submitter, one case per answer of
    the adapter. *)
Ltac submit_unfold Hu Hp :=
  unfold submit, with_submitter; munfold; unfold subscript;
  rewrite ?Hu, ?Hp; simpl.

Ltac submit_answers :=
  repeat match goal with
         | |- context [sv_init ?h ?a ?b ?w] =>
             destruct (sv_init h a b w) as [[[]|?] ?]; simpl
         | |- context [sv_enter ?h ?w] =>
             destruct (sv_enter h w) as [[[]|?] ?]; simpl
         | |- context [sv_authenticate ?h ?a ?b ?w] =>
             destruct (sv_authenticate h a b w) as [[[]|?] ?]; simpl
         | |- context [sv_submit_secret ?h ?a ?w] =>
             destruct (sv_submit_secret h a w) as [[[]|?] ?]; simpl
         | |- context [sv_exit ?h ?w] =>
             destruct (sv_exit h w) as [[[]|?] ?]; simpl
         end.

Ltac submit_paths Hu Hp := submit_unfold Hu Hp; submit_answers.

Lemma adapter_calls_logs (t : list event) :
  Forall (λ ev, adapter_event ev = false) t → adapter_calls t = [].
Proof. induction 1 as [|ev t Hev _ IH]; simpl; [done|]. by rewrite Hev. Qed.

Lemma adapter_calls_app (t1 t2 : list event) :
  adapter_calls (t1 ++ t2) = adapter_calls t1 ++ adapter_calls t2.
Proof.
  induction t1 as [|ev t1 IH]; simpl; [done|].
  destruct (adapter_event ev); simpl; by rewrite IH.
Qed.

(** The shapes the calls of one task into the adapter can take. *)
Lemma submit_protocol r stage secret s u p (h : pyexc → M (@state W) bool) :
  r !! "username" = Some u → r !! "password" = Some p →
  (∀ e, emits (λ ev, adapter_event ev = false) (h e)) →
  adapter_calls (trace_of (try_except (submit host r stage secret) h s))
  ∈ [ [SvInit stage false];
      [SvInit stage false; SvEnter];
      [SvInit stage false; SvEnter; SvAuthenticate u p; SvExit];
      [SvInit stage false; SvEnter; SvAuthenticate u p; SvSubmit secret; SvExit] ].
Proof.
  intros Hu Hp Hh. unfold try_except, trace_of.
  submit_paths Hu Hp;
    try match goal with
        | |- context [h ?e ?x] =>
            let Hx := fresh in
            pose proof (Hh e x) as Hx; unfold trace_of in Hx;
            destruct (h e x) as [[??]?]; simpl in *;
            rewrite (adapter_calls_logs _ Hx)
        end;
    list_mem.
Qed.

(** The shapes the calls of a task into the adapter can take. *)
Lemma adapter_calls_process_csv_record r semaphore stage s :
  adapter_calls (trace_of (process_csv_record host r semaphore stage s))
  ∈ [ [];
      [SvInit stage false];
      [SvInit stage false; SvEnter];
      [SvInit stage false; SvEnter;
       SvAuthenticate (get r "username") (get r "password"); SvExit];
      [SvInit stage false; SvEnter;
       SvAuthenticate (get r "username") (get r "password");
       SvSubmit (submission_of r); SvExit] ].
Proof.
  destruct (decide (0 < semaphore)) as [Hsem|Hsem].
  2:{ unfold process_csv_record, async_with.
      destruct (decide (0 < semaphore)); [lia|]. list_mem. }
  destruct (all_required_dec r) as [Hall|(f & Hin & Hf)].
  - destruct (process_csv_record_try_cases host r stage s Hall)
      as [[Hvalid _]|[Hinv _]].
    + rewrite process_csv_record_valid by done.
      pose proof (required_lookups r Hall) as Hl.
      destruct (Hl "username") as [u Hu]; [decide_by_compute|].
      destruct (Hl "password") as [p Hp]; [decide_by_compute|].
      apply elem_of_cons. right.
      unfold get at 1 2 3 4. rewrite Hu, Hp. simpl.
      apply submit_protocol; [done..|].
      intros e. unfold process_csv_record_except. unfold emits.
      intros x. rewrite bind_subscript by eauto. by repeat constructor.
    + destruct (process_csv_record_invalid host r semaphore stage s Hsem Hinv)
        as (t & -> & Ht).
      unfold trace_of. simpl. rewrite adapter_calls_logs by done. list_mem.
  - destruct (process_csv_record_missing host r semaphore stage s f Hsem Hin Hf)
      as (f0 & _ & _ & ->).
    list_mem.
Qed.


(** X2: the calls one task makes into the Submission Adapter follow a
    fixed protocol: none at all; or one construction (for the run's stage,
    not headless), then entering the scope, then [authenticate] with the
    row's username and password, then at most one [submit_secret] with the
    submission built from the row, then leaving the scope.  The sequence
    stops early only after a construction or an entering that raised. *)
Theorem adapter_protocol r semaphore stage s :
  adapter_calls (trace_of (process_csv_record host r semaphore stage s))
  ∈ [ [];
      [SvInit stage false];
      [SvInit stage false; SvEnter];
      [SvInit stage false; SvEnter;
       SvAuthenticate (get r "username") (get r "password"); SvExit];
      [SvInit stage false; SvEnter;
       SvAuthenticate (get r "username") (get r "password");
       SvSubmit (submission_of r); SvExit] ].
Proof. apply adapter_calls_process_csv_record. Qed.

(** The run of a valid row's task on the scoped submitter, unfolded. *)
Ltac valid_row_unfold Hvalid Hsem :=
  let Hall := fresh "Hall" in
  let Hl := fresh "Hl" in
  pose proof Hvalid as (Hall & _);
  pose proof (required_lookups _ Hall) as Hl;
  let u := fresh "u" in let Hu := fresh "Hu" in
  let p := fresh "p" in let Hp := fresh "Hp" in
  destruct (Hl "username") as [u Hu]; [decide_by_compute|];
  destruct (Hl "password") as [p Hp]; [decide_by_compute|];
  rewrite (process_csv_record_valid _ _ _ _ _ Hsem Hvalid);
  unfold try_except, process_csv_record_except, result_of, state_of, trace_of, get in *;
  rewrite ?Hu, ?Hp in *; cbn [default from_option id] in *;
  submit_unfold Hu Hp.


(** X4: a valid row for which the adapter is constructed and entered,
    [authenticate] and [submit_secret] answer true and the scope is left
    without an exception is reported as a success; the trace of its task
    is exactly the seven events below, and the world is the one the
    adapter left. *)
Theorem cooperating_adapter_gives_success r semaphore stage s w1 w2 w3 w4 w5 :
  0 < semaphore → valid_record host s r →
  sv_init host stage false (world s) = (Ok (), w1) →
  sv_enter host w1 = (Ok (), w2) →
  sv_authenticate host (get r "username") (get r "password") w2 = (Ok true, w3) →
  sv_submit_secret host (submission_of r) w3 = (Ok true, w4) →
  sv_exit host w4 = (Ok (), w5) →
  process_csv_record host r semaphore stage s
  = (Ret true, {| world := w5; files := files s |},
     [SvInit stage false; SvEnter;
      LogInfo ("Attempting to protect secret for user: " +:+ fmt (get r "username"));
      SvAuthenticate (get r "username") (get r "password");
      SvSubmit (submission_of r);
      LogInfo ("Successfully protected secret for user: " +:+ fmt (get r "username"));
      SvExit]).
Proof.
  intros Hsem Hvalid Hinit Henter Hauth Hsubmit Hexit.
  valid_row_unfold Hvalid Hsem.
  rewrite Hinit; simpl. rewrite Henter; simpl. rewrite Hauth; simpl.
  rewrite Hsubmit; simpl. by rewrite Hexit.
Qed.

(** A task that returns true went through the whole protocol. *)
Lemma process_csv_record_true r semaphore stage s :
  result_of (process_csv_record host r semaphore stage s) = Ret true →
  valid_record host s r
  ∧ adapter_calls (trace_of (process_csv_record host r semaphore stage s))
    = [SvInit stage false; SvEnter;
       SvAuthenticate (get r "username") (get r "password");
       SvSubmit (submission_of r); SvExit].
Proof.
  intros Htrue.
  assert (Hsem : 0 < semaphore).
  { unfold process_csv_record, async_with in Htrue.
    by destruct (decide (0 < semaphore)). }
  assert (Hvalid : valid_record host s r).
  { destruct (all_required_dec r) as [Hall|(f & Hin & Hf)].
    - destruct (process_csv_record_try_cases host r stage s Hall)
        as [[Hvalid _]|[Hinv _]]; [done|].
      destruct (process_csv_record_invalid host r semaphore stage s Hsem Hinv)
        as (t & Hrun & _).
      by rewrite Hrun in Htrue.
    - destruct (process_csv_record_missing host r semaphore stage s f Hsem Hin Hf)
        as (f0 & _ & _ & Hrun).
      by rewrite Hrun in Htrue. }
  split; [done|]. revert Htrue.
  valid_row_unfold Hvalid Hsem. submit_answers; by intros [=].
Qed.

(** X5: a task never reports a success it did not obtain from the
    adapter: when [process_csv_record] returns true the row is valid and
    the adapter was constructed, entered, authenticated with the row's
    credentials, given the row's submission, and left, in that order. *)
Theorem success_requires_submission r semaphore stage s :
  result_of (process_csv_record host r semaphore stage s) = Ret true →
  valid_record host s r
  ∧ adapter_calls (trace_of (process_csv_record host r semaphore stage s))
    = [SvInit stage false; SvEnter;
       SvAuthenticate (get r "username") (get r "password");
       SvSubmit (submission_of r); SvExit].
Proof. apply process_csv_record_true. Qed.

(** X6: once the adapter is constructed and entered for a valid row, the
    scope is left exactly once and no call into the adapter follows,
    whatever [authenticate] and [submit_secret] answer or raise. *)
Theorem scope_is_always_left r semaphore stage s w1 w2 :
  0 < semaphore → valid_record host s r →
  sv_init host stage false (world s) = (Ok (), w1) →
  sv_enter host w1 = (Ok (), w2) →
  count_events is_release (trace_of (process_csv_record host r semaphore stage s))
  = 1%nat
  ∧ last (adapter_calls (trace_of (process_csv_record host r semaphore stage s)))
    = Some SvExit.
Proof.
  intros Hsem Hvalid Hinit Henter.
  valid_row_unfold Hvalid Hsem.
  rewrite Hinit; simpl. rewrite Henter; simpl.
  submit_answers; done.
Qed.

(** ** The batch *)

Lemma count_events_app f (t1 t2 : list event) :
  count_events f (t1 ++ t2) = (count_events f t1 + count_events f t2)%nat.
Proof. induction t1 as [|e t1 IH]; simpl; [done|]. rewrite IH. lia. Qed.

Lemma count_events_none f (t : list event) :
  Forall (λ e, f e = false) t → count_events f t = 0%nat.
Proof. induction 1 as [|e t He _ IH]; simpl; [done|]. by rewrite He, IH. Qed.

Lemma count_events_adapter_calls f (t : list event) :
  (∀ e, f e = true → adapter_event e = true) →
  count_events f (adapter_calls t) = count_events f t.
Proof.
  intros Hf. induction t as [|e t IH]; simpl; [done|].
  destruct (adapter_event e) eqn:He; simpl; rewrite IH; [done|].
  destruct (f e) eqn:Hfe; [|done]. apply Hf in Hfe. congruence.
Qed.

(** A task constructs the adapter at most once. *)
Lemma process_csv_record_constructs_once r semaphore stage s :
  (count_events is_construction
     (trace_of (process_csv_record host r semaphore stage s)) ≤ 1)%nat.
Proof.
  rewrite <- count_events_adapter_calls by (by intros []).
  pose proof (adapter_calls_process_csv_record r semaphore stage s) as Hin.
  repeat (apply elem_of_cons in Hin as [->|Hin]; [simpl; lia|]).
  by apply elem_of_nil in Hin.
Qed.

Lemma run_tasks_count f (tasks : list (M (@state W) bool)) s :
  Forall (λ t, ∀ s', (count_events f (trace_of (t s')) ≤ 1)%nat) tasks →
  (count_events f (trace_of (run_tasks tasks s)) ≤ length tasks)%nat.
Proof.
  intros Hall. revert s. induction Hall as [|t ts Ht _ IH]; intros s; simpl.
  - lia.
  - specialize (Ht s). munfold.
    destruct (t s) as [[[b|e|] s1] t1]; simpl in *; try lia.
    + specialize (IH s1).
      destruct (run_tasks ts s1) as [[[futs|e|] s2] t2]; simpl in *;
        rewrite ?count_events_app; simpl; lia.
    + specialize (IH s1).
      destruct (run_tasks ts s1) as [[[futs|e'|] s2] t2]; simpl in *;
        rewrite ?count_events_app; simpl; lia.
Qed.

Lemma prefix_app (p rest : string) : String.prefix p (p +:+ rest) = true.
Proof.
  induction p as [|c p IH]; [by destruct rest|].
  simpl. by destruct (Ascii.ascii_dec c c).
Qed.

Lemma is_progress_line_progress (rest : string) :
  is_progress_line (LogInfo ("Progress: " +:+ rest)) = true.
Proof. apply prefix_app. Qed.

(** The loop of lines 91-100 over tasks that all returned: the counters
    stay non-negative and one progress line is logged per task. *)
Lemma count_completed_progress (bs : list bool) completed (res : results) s :
  0 ≤ success res → 0 ≤ failed res →
  ∃ res' t,
    count_completed (inr <$> bs) completed (res, s) = (Ret (), (res', s), t)
    ∧ total res' = total res
    ∧ success res' + failed res' = success res + failed res + Z.of_nat (length bs)
    ∧ 0 ≤ success res' ∧ 0 ≤ failed res'
    ∧ no_adapter_events t
    ∧ count_events is_progress_line t = length bs.
Proof.
  revert completed res. induction bs as [|b bs IH]; intros completed res Hs Hf; simpl.
  - exists res, []. split_and!; try done; [lia|constructor].
  - rewrite bind_ret_l.
    set (res1 := if b then incr_success res else incr_failed res).
    destruct (IH (completed + 1) res1)
      as (res' & t & Hrun & Htot & Hsum & Hs' & Hf' & Ht & Hcount).
    { subst res1. destruct b; simpl; lia. }
    { subst res1. destruct b; simpl; lia. }
    munfold. unfold modify_local, get_local.
    unfold fmap in Hrun.
    destruct b; subst res1; simpl in Hrun, Htot, Hsum, Hs', Hf' |- *;
      rewrite Hrun; simpl;
      (eexists _, _; split_and!;
       [reflexivity|by rewrite Htot|rewrite Hsum; lia|done|done
       |by constructor
       |cbn [count_events]; by rewrite is_progress_line_progress, Hcount]).
Qed.

(** The whole run with a positive bound and a readable file: the tasks,
    then the loop over their results. *)
Lemma process_secrets_file_run picks csv_file max_concurrent stage s rows :
  0 < max_concurrent →
  read_rows host csv_file (world s) = Ok rows →
  let tasks := (λ r, process_csv_record host r max_concurrent stage) <$> rows in
  ∃ res s1 t1 t2,
    process_secrets_file host picks csv_file max_concurrent stage s
    = (Ret res, s1, t1 ++ t2)
    ∧ trace_of (run_tasks (event_loop_order (length tasks) picks tasks) s) = t1
    ∧ total res = Z.of_nat (length rows)
    ∧ success res + failed res = total res
    ∧ 0 ≤ success res ∧ 0 ≤ failed res
    ∧ no_adapter_events t2
    ∧ count_events is_progress_line t2 = length rows.
Proof.
  intros Hmax Hread tasks.
  unfold process_secrets_file, with_local, process_secrets_file_try.
  fold tasks.
  destruct (run_tasks_all_return
              (event_loop_order (length tasks) picks tasks) s)
    as (bs & Hbs & Hlen).
  { rewrite event_loop_order_Permutation.
    apply Forall_fmap, Forall_forall. intros r _ s1. simpl.
    by apply process_csv_record_returns. }
  rewrite event_loop_order_Permutation in Hlen.
  unfold tasks in Hlen. rewrite length_fmap in Hlen.
  munfold. unfold lift at 1, modify_local at 1, Semaphore. simpl.
  rewrite Hread. simpl.
  destruct (decide (max_concurrent < 0)); [lia|]. simpl.
  fold tasks.
  rewrite lift_run. unfold result_of, trace_of in *.
  destruct (run_tasks (event_loop_order (length tasks) picks tasks) s)
    as [[o s1] t1]; simpl in *. subst o.
  destruct (count_completed_progress bs 0
              (set_total (Z.of_nat (length rows))
                 {| total := 0; success := 0; failed := 0 |}) s1)
    as (res' & t & Hrun & Htot & Hsum & Hs & Hf & Ht & Hcount); [done..|].
  rewrite Hrun. simpl. unfold get_local. simpl.
  exists res', s1, t1, t. rewrite app_nil_r.
  split_and!; try done; [|by rewrite Hcount].
  rewrite Hsum, Htot, Hlen. simpl. lia.
Qed.




(** An empty file with a bound that is not negative: nothing happens. *)
Lemma process_secrets_file_empty picks csv_file max_concurrent stage s :
  0 ≤ max_concurrent →
  read_rows host csv_file (world s) = Ok [] →
  process_secrets_file host picks csv_file max_concurrent stage s
  = (Ret {| total := 0; success := 0; failed := 0 |}, s, []).
Proof.
  intros Hmax Hread.
  unfold process_secrets_file, with_local, process_secrets_file_try, Semaphore.
  munfold. unfold lift at 1, modify_local at 1. simpl. rewrite Hread. simpl.
  by destruct (decide (max_concurrent < 0)); [lia|].
Qed.

(** A semaphore of value zero and at least one row: the first task the
    event loop starts waits for the permit for ever. *)
Lemma process_secrets_file_zero_permits picks csv_file stage s rows :
  read_rows host csv_file (world s) = Ok rows → rows ≠ [] →
  process_secrets_file host picks csv_file 0 stage s = (Block, s, []).
Proof.
  intros Hread Hrows.
  set (tasks := (λ r, process_csv_record host r 0 stage) <$> rows).
  assert (Hblock : run_tasks (event_loop_order (length tasks) picks tasks) s
                   = (Block, s, [])).
  { pose proof (event_loop_order_Permutation picks tasks) as Hperm.
    destruct (event_loop_order (length tasks) picks tasks) as [|t0 rest].
    - apply Permutation_nil_l in Hperm. subst tasks.
      by destruct rows.
    - assert (Hin : t0 ∈ tasks) by (rewrite <- Hperm; apply list_elem_of_here).
      apply list_elem_of_fmap in Hin as (r & -> & _).
      simpl. by destruct s. }
  unfold process_secrets_file, with_local, process_secrets_file_try, Semaphore.
  fold tasks. munfold. unfold lift at 1, modify_local at 1. simpl.
  rewrite Hread. simpl. fold tasks. rewrite lift_run, Hblock. by destruct s.
Qed.

(** X8: a file without rows gives the counters 0, 0, 0 for every value of
    [max_concurrent], leaves the state as it was and makes no call into
    the adapter; unless the bound is negative nothing is logged either. *)
Theorem empty_file_gives_zero_counters picks csv_file max_concurrent stage s :
  read_rows host csv_file (world s) = Ok [] →
  result_of (process_secrets_file host picks csv_file max_concurrent stage s)
  = Ret {| total := 0; success := 0; failed := 0 |}
  ∧ state_of (process_secrets_file host picks csv_file max_concurrent stage s) = s
  ∧ no_adapter_events
      (trace_of (process_secrets_file host picks csv_file max_concurrent stage s))
  ∧ (0 ≤ max_concurrent →
     trace_of (process_secrets_file host picks csv_file max_concurrent stage s) = []).
Proof.
  intros Hread. destruct (decide (max_concurrent < 0)) as [Hneg|Hpos].
  - rewrite (process_secrets_file_negative_bound host _ _ _ _ _ [] Hneg Hread).
    split_and!; [done|done|by repeat constructor|lia].
  - rewrite process_secrets_file_empty by (done || lia).
    split_and!; [done|done|constructor|done].
Qed.

(** X9: with [max_concurrent = 0] and at least one row the run never
    returns: every task waits for a permit that no task holds, no row is
    processed and nothing is logged. *)
Theorem zero_permits_never_complete picks csv_file stage s rows :
  read_rows host csv_file (world s) = Ok rows → rows ≠ [] →
  process_secrets_file host picks csv_file 0 stage s = (Block, s, []).
Proof. apply process_secrets_file_zero_permits. Qed.

(** X10: a run constructs the Submission Adapter at most once per row of
    the file, whatever the bound. *)
Theorem at_most_one_adapter_per_row picks csv_file max_concurrent stage s rows :
  read_rows host csv_file (world s) = Ok rows →
  (count_events is_construction
     (trace_of (process_secrets_file host picks csv_file max_concurrent stage s))
   ≤ length rows)%nat.
Proof.
  intros Hread.
  destruct (decide (max_concurrent < 0)) as [Hneg|Hpos].
  { rewrite (process_secrets_file_negative_bound host _ _ _ _ _ rows Hneg Hread).
    simpl. lia. }
  destruct (decide (max_concurrent = 0)) as [->|Hnz].
  { destruct rows as [|r rows].
    - by rewrite process_secrets_file_empty.
    - rewrite (process_secrets_file_zero_permits _ _ _ _ (r :: rows)) by done.
      simpl. lia. }
  destruct (process_secrets_file_run picks csv_file max_concurrent stage s rows)
    as (res & s1 & t1 & t2 & Hrun & Ht1 & _ & _ & _ & _ & Ht2 & _); [lia|done|].
  rewrite Hrun. unfold trace_of at 1. simpl. rewrite count_events_app.
  rewrite (count_events_none _ t2).
  2:{ eapply Forall_impl; [exact Ht2|]. by intros []. }
  rewrite <- Ht1, Nat.add_0_r.
  etrans; [apply run_tasks_count|].
  - rewrite event_loop_order_Permutation.
    apply Forall_fmap, Forall_forall. intros r _ s'. simpl.
    apply process_csv_record_constructs_once.
  - by rewrite event_loop_order_Permutation, length_fmap.
Qed.

(** ** The sample generator, further *)



(** X12: a record count that is zero or negative gives a file that holds
    the header line and nothing else. *)
Theorem no_rows_for_nonpositive_count output_file num_records s :
  num_records ≤ 0 →
  open_write host output_file (world s) = Ok () →
  files (state_of (generate_sample_csv host output_file num_records s)) !! output_file
  = Some ("username;password;secret_type;secret;secret_desc;keepic" +:+ CRLF).
Proof.
  intros Hn Hopen. rewrite generate_sample_csv_run by done.
  unfold state_of. cbn [fst snd files]. rewrite lookup_insert_eq.
  unfold sample_file, range. by rewrite seqZ_nil.
Qed.

(** ** main_async *)

(** X15: with [--generate-sample] the file named by [--csv] is the output:
    it is replaced by the sample, the input is not processed, the adapter
    is not touched, and the other options play no part. *)
Theorem sample_mode_overwrites_csv_argument picks args s :
  arg_generate_sample args = true →
  open_write host (arg_csv args) (world s) = Ok () →
  main_async host picks args s
  = (Ret (),
     {| world := world s;
        files := <[arg_csv args := sample_file (arg_num_records args)]> (files s) |},
     [LogInfo ("Generated sample CSV file: " +:+ arg_csv args)]).
Proof.
  intros Hflag Hopen. unfold main_async. rewrite Hflag.
  by apply generate_sample_csv_run.
Qed.


(** ** The sample rows as input *)

(** X17: the sample file is an input of the batch.  Every line that
    [generate_sample_csv] leaves in the file after the header line, split
    at the semicolons and keyed by the fields of the header line, is a row
    that passes the validation of [process_csv_record] wherever
    [./keepic.jpg] exists: the task goes on to the adapter with a
    submission of type [text] whose text is the row's secret. *)
Theorem sample_rows_are_processable output_file num_records semaphore stage s s' :
  0 < semaphore →
  open_write host output_file (world s) = Ok () →
  path_exists host "./keepic.jpg" (world s') = Ok true →
  let written :=
    default "" (files (state_of (generate_sample_csv host output_file num_records s))
                  !! output_file) in
  let lines := lines_from written "" in
  ∀ line, line ∈ tail lines →
    let r := dict_row (fields_from (default "" (head lines)) "") (fields_from line "") in
    valid_record host s' r
    ∧ ∃ sub,
        make_submission r s' = (Ret sub, s', [])
        ∧ type sub = PyStr "text"
        ∧ text sub = get r "secret"
        ∧ keepic_path sub = PyStr "./keepic.jpg"
        ∧ process_csv_record host r semaphore stage s'
          = try_except (submit host r stage sub) (process_csv_record_except r) s'.
Proof.
  intros Hsem Hopen Hexists. rewrite generate_sample_csv_run by done.
  unfold state_of. cbn [fst snd files]. rewrite lookup_insert_eq.
  change (default "" (Some (sample_file num_records))) with (sample_file num_records).
  cbv zeta. rewrite lines_from_sample_file. cbn [head tail].
  change (default "" (Some ?x)) with x.
  intros line (i & -> & Hi)%list_elem_of_fmap.
  assert (0 ≤ i) by (unfold range in Hi; apply elem_of_seqZ in Hi; lia).
  rewrite (fields_from_csv_join (sample_row i)) by (by try apply sample_row_plain).
  change (fields_from "username;password;secret_type;secret;secret_desc;keepic" "")
    with ["username"; "password"; "secret_type"; "secret"; "secret_desc"; "keepic"].
  set (r := dict_row _ _).
  assert (Hall : Forall (λ field, truthy (get r field) = true) required_fields).
  { repeat constructor. }
  assert (Hvalid : valid_record host s' r).
  { split_and!; [done|by intros [=]|by exists "./keepic.jpg"]. }
  split; [done|]. exists (submission_of r).
  split_and!; [by apply make_submission_run|reflexivity..|].
  by apply process_csv_record_valid.
Qed.

(** ** Failures after authentication *)



(** ** The order of the tasks *)


Lemma event_loop_order_fmap {A B} (g : A → B) n (picks : list nat) (todo : list A) :
  event_loop_order n picks (g <$> todo) = g <$> event_loop_order n picks todo.
Proof.
  revert picks todo. induction n as [|n IH]; intros picks todo; simpl; [done|].
  rewrite length_fmap, list_lookup_fmap.
  destruct (todo !! _) as [t|] eqn:Ht; simpl; [|done].
  f_equal. rewrite <- IH. f_equal. clear.
  generalize (hd 0 picks `mod` length todo)%nat. intros i. revert i.
  induction todo as [|x todo IHt]; intros [|i]; simpl; try done.
  by rewrite IHt.
Qed.





End Coverage.

(** ** The permit, further *)

Section PermitProgress.

Implicit Types (st : loop_state) (l : list phase) (f : phase → bool).

Lemma count_phases_nonneg f l : 0 ≤ count_phases f l.
Proof. induction l as [|p l IH]; simpl; [done|]. destruct (f p); lia. Qed.

Lemma count_phases_pos f l :
  0 < count_phases f l → ∃ i p, l !! i = Some p ∧ f p = true.
Proof.
  induction l as [|p l IH]; simpl; [lia|].
  destruct (f p) eqn:Hp.
  - intros _. by exists 0%nat, p.
  - intros Hpos. destruct IH as (i & q & Hi & Hq); [lia|].
    by exists (S i), q.
Qed.

Lemma count_phases_zero f l :
  Forall (λ p, f p = false) l → count_phases f l = 0.
Proof. induction 1 as [|p l Hp _ IH]; simpl; [done|]. by rewrite Hp, IH. Qed.

Lemma all_finished_or_not l :
  Forall (λ p, p = Finished) l ∨ ∃ i p, l !! i = Some p ∧ p ≠ Finished.
Proof.
  induction l as [|p l [IH|(i & q & Hi & Hq)]].
  - left. constructor.
  - destruct p; try (right; by eexists 0%nat, _). left. by constructor.
  - right. by exists (S i), q.
Qed.

(** X18: no permit is ever lost or invented: in every state a batch can
    reach, the value of the semaphore lies between zero and
    [max_concurrent], and it is back at [max_concurrent] whenever no task
    is inside the [async with] block. *)
Theorem permits_are_conserved max_concurrent n moves st :
  0 ≤ max_concurrent →
  steps (start max_concurrent n) moves = Some st →
  0 ≤ sem_value st ≤ max_concurrent
  ∧ (Forall (λ p, holds_permit p = false) (phases st) →
     sem_value st = max_concurrent).
Proof.
  intros Hmax Hrun.
  destruct (steps_balance max_concurrent moves _ st
              (start_balance max_concurrent n Hmax) Hrun) as [Hsum Hpos].
  pose proof (count_phases_nonneg holds_permit (phases st)).
  split; [lia|]. intros Hnone.
  rewrite (count_phases_zero _ _ Hnone) in Hsum. lia.
Qed.

(** X19: with at least one permit a batch cannot get stuck: in a
    reachable state from which no task can move, every task has left the
    [async with] block. *)
Theorem stuck_batch_is_finished max_concurrent n moves st :
  0 < max_concurrent →
  steps (start max_concurrent n) moves = Some st →
  (∀ i a, step st i a = None) →
  Forall (λ p, p = Finished) (phases st).
Proof.
  intros Hmax Hrun Hstuck.
  destruct (steps_balance max_concurrent moves _ st
              (start_balance max_concurrent n ltac:(lia)) Hrun) as [Hsum Hpos].
  destruct (all_finished_or_not (phases st)) as [|(i & p & Hi & Hp)]; [done|].
  exfalso.
  assert (Hrelease : ∀ j q, phases st !! j = Some q → holds_permit q = true → False).
  { intros j q Hj Hq. specialize (Hstuck j Release).
    unfold step in Hstuck. rewrite Hj, Hq in Hstuck. by destruct q. }
  destruct (decide (0 < sem_value st)) as [Hfree|Hnone].
  - destruct p; try by eapply Hrelease.
    specialize (Hstuck i Acquire). unfold step in Hstuck. rewrite Hi in Hstuck.
    by destruct (decide (0 < sem_value st)).
  - destruct (count_phases_pos holds_permit (phases st)) as (j & q & Hj & Hq); [lia|].
    by eapply Hrelease.
Qed.

End PermitProgress.

(** ** The further properties at concrete inputs *)


Lemma first_missing_field_is_reported_witness :
  let host := demo_host (Ok []) (Ok true) in
  let r := delete "secret" (delete "password" (demo_row "text" "This is secret #1")) in
  process_csv_record host r 1 "dev" demo_state
  = (Ret false, demo_state, [LogError "Missing required field: password"]).
Proof.
  apply (first_missing_field_is_reported (demo_host (Ok []) (Ok true)) _ 1 "dev"
           demo_state ["username"] "password"
           ["secret_type"; "secret"; "secret_desc"; "keepic"]).
  - lia.
  - reflexivity.
  - repeat constructor. intros Hmiss. apply missing_or_empty_falsy in Hmiss.
    by vm_compute in Hmiss.
  - left. reflexivity.
Defined.


Lemma cooperating_adapter_gives_success_witness :
  let host := demo_host (Ok []) (Ok true) in
  let r := demo_row "text" "This is secret #1" in
  process_csv_record host r 1 "dev" demo_state
  = (Ret true, demo_state,
     [SvInit "dev" false; SvEnter;
      LogInfo "Attempting to protect secret for user: user1";
      SvAuthenticate (PyStr "user1") (PyStr "password1");
      SvSubmit {| name := PyStr "Sample Secret 1"; type := PyStr "text";
                  tag := PyStr ""; text := PyStr "This is secret #1";
                  keepic_path := PyStr "./keepic.jpg" |};
      LogInfo "Successfully protected secret for user: user1";
      SvExit]).
Proof.
  assert (H1 : 0 < 1) by lia.
  exact (cooperating_adapter_gives_success (demo_host (Ok []) (Ok true))
           (demo_row "text" "This is secret #1") 1 "dev" demo_state () () () () ()
           H1 (demo_row_valid _ _ "text" "This is secret #1"
                 ltac:(done) ltac:(done) ltac:(done) ltac:(done))
           eq_refl eq_refl eq_refl eq_refl eq_refl).
Defined.

Lemma success_requires_submission_witness :
  let host := demo_host (Ok []) (Ok true) in
  let r := demo_row "text" "This is secret #1" in
  result_of (process_csv_record host r 1 "dev" demo_state) = Ret true
  ∧ adapter_calls (trace_of (process_csv_record host r 1 "dev" demo_state))
    = [SvInit "dev" false; SvEnter;
       SvAuthenticate (PyStr "user1") (PyStr "password1");
       SvSubmit {| name := PyStr "Sample Secret 1"; type := PyStr "text";
                   tag := PyStr ""; text := PyStr "This is secret #1";
                   keepic_path := PyStr "./keepic.jpg" |};
       SvExit].
Proof.
  assert (H1 : result_of (process_csv_record (demo_host (Ok []) (Ok true))
                            (demo_row "text" "This is secret #1") 1 "dev" demo_state)
               = Ret true) by (by vm_compute).
  split; [exact H1|].
  exact (proj2 (success_requires_submission _ _ 1 "dev" _ H1)).
Defined.

Lemma scope_is_always_left_witness :
  let crash := PyExc "RuntimeError" "browser crashed" in
  let host := demo_host (Ok []) (Err crash) in
  let r := demo_row "text" "This is secret #1" in
  count_events is_release (trace_of (process_csv_record host r 1 "dev" demo_state))
  = 1%nat
  ∧ last (adapter_calls (trace_of (process_csv_record host r 1 "dev" demo_state)))
    = Some SvExit.
Proof.
  assert (H1 : 0 < 1) by lia.
  exact (scope_is_always_left
           (demo_host (Ok []) (Err (PyExc "RuntimeError" "browser crashed")))
           (demo_row "text" "This is secret #1") 1 "dev" demo_state () ()
           H1 (demo_row_valid _ _ "text" "This is secret #1"
                 ltac:(done) ltac:(done) ltac:(done) ltac:(done))
           eq_refl eq_refl).
Defined.


Lemma empty_file_gives_zero_counters_witness :
  let host := demo_host (Ok []) (Ok true) in
  result_of (process_secrets_file host [] "secrets.csv" (-1) "dev" demo_state)
  = Ret {| total := 0; success := 0; failed := 0 |}
  ∧ result_of (process_secrets_file host [] "secrets.csv" 0 "dev" demo_state)
    = Ret {| total := 0; success := 0; failed := 0 |}.
Proof.
  split.
  - exact (proj1 (empty_file_gives_zero_counters (demo_host (Ok []) (Ok true))
                    [] "secrets.csv" (-1) "dev" demo_state eq_refl)).
  - exact (proj1 (empty_file_gives_zero_counters (demo_host (Ok []) (Ok true))
                    [] "secrets.csv" 0 "dev" demo_state eq_refl)).
Defined.

Lemma zero_permits_never_complete_witness :
  let host := demo_host (Ok [demo_row "text" "This is secret #1"]) (Ok true) in
  process_secrets_file host [] "secrets.csv" 0 "dev" demo_state
  = (Block, demo_state, []).
Proof.
  exact (zero_permits_never_complete
           (demo_host (Ok [demo_row "text" "This is secret #1"]) (Ok true))
           [] "secrets.csv" "dev" demo_state _ eq_refl ltac:(done)).
Defined.

Lemma at_most_one_adapter_per_row_witness :
  let rows := [demo_row "text" "first"; delete "password" (demo_row "text" "second")] in
  let host := demo_host (Ok rows) (Ok true) in
  (count_events is_construction
     (trace_of (process_secrets_file host [] "secrets.csv" 3 "dev" demo_state))
   ≤ 2)%nat.
Proof.
  exact (at_most_one_adapter_per_row
           (demo_host (Ok [demo_row "text" "first";
                           delete "password" (demo_row "text" "second")]) (Ok true))
           [] "secrets.csv" 3 "dev" demo_state _ eq_refl).
Defined.


Lemma no_rows_for_nonpositive_count_witness :
  let host := demo_host (Ok []) (Ok true) in
  files (state_of (generate_sample_csv host "sample.csv" (-3) demo_state)) !! "sample.csv"
  = Some ("username;password;secret_type;secret;secret_desc;keepic" +:+ CRLF).
Proof.
  assert (H1 : -3 ≤ 0) by lia.
  exact (no_rows_for_nonpositive_count (demo_host (Ok []) (Ok true)) "sample.csv"
           (-3) demo_state H1 eq_refl).
Defined.

Lemma sample_mode_overwrites_csv_argument_witness :
  let host := demo_host (Ok [demo_row "text" "This is secret #1"]) (Ok true) in
  let args := {| arg_csv := "secrets.csv"; arg_generate_sample := true;
                 arg_num_records := 1; arg_max_concurrent := 3; arg_stage := "dev" |} in
  let s := {| world := (); files := {["secrets.csv" := "precious"]} |} in
  files (state_of (main_async host [] args s)) !! "secrets.csv" = Some (sample_file 1).
Proof.
  intros host args s.
  rewrite (sample_mode_overwrites_csv_argument host [] args s eq_refl eq_refl).
  apply lookup_insert_eq.
Defined.


Lemma permits_are_conserved_witness :
  let moves := [(0%nat, Acquire); (1%nat, Acquire); (0%nat, Release); (1%nat, Release)] in
  let st := {| sem_value := 2; phases := [Finished; Finished; Waiting] |} in
  steps (start 2 3) moves = Some st
  ∧ 0 ≤ sem_value st ≤ 2.
Proof.
  assert (H1 : 0 ≤ 2) by lia.
  split; [reflexivity|].
  exact (proj1 (permits_are_conserved 2 3
                  [(0%nat, Acquire); (1%nat, Acquire); (0%nat, Release); (1%nat, Release)]
                  _ H1 eq_refl)).
Defined.

Lemma stuck_batch_is_finished_witness :
  let moves := [(0%nat, Acquire); (0%nat, Advance); (0%nat, Release)] in
  let st := {| sem_value := 1; phases := [Finished] |} in
  steps (start 1 1) moves = Some st
  ∧ Forall (λ p, p = Finished) (phases st).
Proof.
  assert (H1 : 0 < 1) by lia.
  split; [reflexivity|].
  apply (stuck_batch_is_finished 1 1
           [(0%nat, Acquire); (0%nat, Advance); (0%nat, Release)] _ H1 eq_refl).
  intros [|i] []; reflexivity.
Defined.





(** * The handlers and the class of what is raised *)

(** ** The handler with the test of the class *)

Section Handler.

Context {S A : Type}.
Implicit Types (m : M S A) (h : pyexc → M S A) (x : S).

(** An instance of [Exception] reaches the handler. *)
Lemma try_except_Exception_caught m h x e x1 t1 :
  m x = (Raise e, x1, t1) → Signals.is_Exception e = true →
  Signals.try_except m h x
  = ((h e x1).1.1, (h e x1).1.2, t1 ++ (h e x1).2).
Proof.
  intros Hm He. unfold Signals.try_except. rewrite Hm, He.
  by destruct (h e x1) as [[??]?].
Qed.

(** Any other exception passes it. *)
Lemma try_except_Exception_passed m h x e x1 t1 :
  m x = (Raise e, x1, t1) → Signals.is_Exception e = false →
  Signals.try_except m h x = (Raise e, x1, t1).
Proof. intros Hm He. unfold Signals.try_except. by rewrite Hm, He. Qed.

(** What leaves a handler that does not raise is what the body raised,
    and it is no instance of [Exception]. *)
Lemma try_except_Exception_raise m h x e :
  (∀ e0 x0 e', result_of (h e0 x0) ≠ Raise e') →
  result_of (Signals.try_except m h x) = Raise e →
  result_of (m x) = Raise e ∧ Signals.is_Exception e = false.
Proof.
  intros Hh. unfold Signals.try_except, result_of in *.
  destruct (m x) as [[[a|e0|] x1] t1]; simpl; try discriminate.
  destruct (Signals.is_Exception e0) eqn:He0; simpl.
  - specialize (Hh e0 x1). destruct (h e0 x1) as [[o x2] t2]; simpl in *.
    intros ->. by destruct (Hh e).
  - by intros [= <-].
Qed.

Lemma never_blocks_try_except_Exception m h :
  never_blocks m → (∀ e, never_blocks (h e)) →
  never_blocks (Signals.try_except m h).
Proof.
  intros Hm Hh x. specialize (Hm x). unfold Signals.try_except, result_of in *.
  destruct (m x) as [[[a|e|] x1] t1]; simpl in *; try done.
  destruct (Signals.is_Exception e); [|done].
  specialize (Hh e x1). unfold result_of in Hh.
  by destruct (h e x1) as [[o x2] t2].
Qed.

(** On a body that raises instances of [Exception] only, the test of the
    class changes nothing. *)
Lemma try_except_Exception_agree m h x :
  (∀ e, result_of (m x) = Raise e → Signals.is_Exception e = true) →
  Signals.try_except m h x = try_except m h x.
Proof.
  intros Hm. unfold Signals.try_except, try_except, result_of in *.
  destruct (m x) as [[[a|e|] x1] t1]; simpl in *; try done.
  by rewrite Hm.
Qed.

End Handler.

Section BaseExceptions.

Context {W : Type} (host : @Host W).
Implicit Types (r : record) (s : @state W) (stage : string) (e : pyexc).

Ltac never_blocks_walk :=
  lazymatch goal with
  | |- never_blocks (_ ≫= _) => apply never_blocks_bind; [|intros ?]
  | |- never_blocks (mret _) => apply never_blocks_ret
  | |- never_blocks (raise _) => apply never_blocks_raise
  | |- never_blocks (subscript _ _) => apply never_blocks_subscript
  | |- never_blocks (probe _) => apply never_blocks_probe
  | |- never_blocks (call _ _) => apply never_blocks_call
  | |- never_blocks (logger_error _) => apply never_blocks_emit
  | |- never_blocks (logger_info _) => apply never_blocks_emit
  | |- never_blocks (settle _) => apply never_blocks_settle
  | |- never_blocks (if ?b then _ else _) => destruct b
  | |- never_blocks (match ?x with _ => _ end) => destruct x
  end.

(** The body of the [try] raises only past the check of the required
    fields, where the row has a username. *)
Lemma process_csv_record_try_raise_username r stage s e :
  result_of (process_csv_record_try host r stage s) = Raise e →
  ∃ u, r !! "username" = Some (PyStr u).
Proof.
  intros Hraise. destruct (all_required_dec r) as [Hall|(f & Hin & Hf)].
  - rewrite Forall_forall in Hall.
    destruct (proj1 (truthy_get r "username")) as (u & Hu & _);
      [apply Hall; set_solver|eauto].
  - destruct (process_csv_record_try_missing host r stage s f Hin Hf)
      as (f0 & _ & _ & Hstop).
    rewrite Hstop in Hraise. discriminate.
Qed.

(** What leaves [process_csv_record] was raised by the body of its [try]
    and is no instance of [Exception]. *)
Lemma process_csv_record_raise r semaphore stage s e :
  result_of (Signals.process_csv_record host r semaphore stage s) = Raise e →
  result_of (process_csv_record_try host r stage s) = Raise e
  ∧ Signals.is_Exception e = false.
Proof.
  unfold Signals.process_csv_record, async_with.
  destruct (decide (0 < semaphore)); [|done].
  unfold Signals.try_except, result_of.
  destruct (process_csv_record_try host r stage s) as [[[b|e0|] s1] t1] eqn:Htry;
    simpl; try discriminate.
  destruct (Signals.is_Exception e0) eqn:He0; simpl.
  - destruct (process_csv_record_try_raise_username r stage s e0) as [u Hu];
      [by rewrite Htry|].
    rewrite process_csv_record_except_run by eauto. discriminate.
  - by intros [= <-].
Qed.

Lemma never_blocks_process_csv_record_try r stage :
  never_blocks (process_csv_record_try host r stage).
Proof.
  unfold process_csv_record_try. apply never_blocks_check_required.
  unfold validate_file_path, Path, make_submission, submit, with_submitter.
  repeat never_blocks_walk.
Qed.

Lemma never_blocks_process_csv_record_Exception r semaphore stage :
  0 < semaphore →
  never_blocks (Signals.process_csv_record host r semaphore stage).
Proof.
  intros Hsem. unfold Signals.process_csv_record, async_with.
  destruct (decide (0 < semaphore)); [|lia].
  apply never_blocks_try_except_Exception.
  - apply never_blocks_process_csv_record_try.
  - intros e. unfold process_csv_record_except. repeat never_blocks_walk.
Qed.

Lemma stops_loop_is_no_Exception e :
  Signals.stops_loop e = true → Signals.is_Exception e = false.
Proof.
  unfold Signals.stops_loop, Signals.is_Exception, Signals.base_only_classes.
  intros He%bool_decide_eq_true. apply negb_false_iff, bool_decide_eq_true.
  repeat (apply elem_of_cons in He as [->|He];
          [repeat first [apply list_elem_of_here | apply list_elem_of_further]|]).
  by apply elem_of_nil in He.
Qed.

(** The event loop runs every task to its end and keeps one future per
    task, unless a task ends in an exception that stops the loop; no task
    waits, and no task ends in an instance of [Exception]. *)
Lemma run_tasks_settled (tasks : list (M (@state W) bool)) s :
  Forall (λ t, never_blocks t
               ∧ ∀ s' e, result_of (t s') = Raise e → Signals.is_Exception e = false)
    tasks →
  match result_of (Signals.run_tasks tasks s) with
  | Ret futs =>
      length futs = length tasks
      ∧ Forall (λ fut, ∀ e, fut = inl e → Signals.is_Exception e = false) futs
  | Raise e => Signals.stops_loop e = true
  | Block => False
  end.
Proof.
  intros Hall. revert s. induction Hall as [|t ts [Hnb Ht] _ IH]; intros s; simpl.
  - split; [done|constructor].
  - specialize (Hnb s). specialize (Ht s). unfold Signals.raise_into_loop. munfold.
    destruct (t s) as [[[b|e|] s1] t1]; simpl in *; [| |done].
    + specialize (IH s1).
      destruct (Signals.run_tasks ts s1) as [[[futs|e|] s2] t2]; simpl in *;
        [|done..].
      destruct IH as [Hlen HQ]. split; [by rewrite Hlen|]. by constructor.
    + destruct (Signals.stops_loop e) eqn:Hstop; simpl; [done|].
      specialize (IH s1).
      destruct (Signals.run_tasks ts s1) as [[[futs|e'|] s2] t2]; simpl in *;
        [|done..].
      destruct IH as [Hlen HQ]. split; [by rewrite Hlen|].
      constructor; [|done]. intros e' [= <-]. by apply Ht.
Qed.

(** C4: an exception that is an instance of [Exception], raised while a
    row is processed (in validation, in the construction of the adapter,
    in authentication or in submission), is caught by
    [process_csv_record], which logs it with the row's username and
    returns false.  Whatever leaves [process_csv_record] is no instance of
    [Exception], and no instance of [Exception] aborts the batch: the
    event loop runs every task to its end, each future holding a boolean
    or an exception that is no instance of [Exception], unless a task ends
    in [KeyboardInterrupt] or [SystemExit]. *)
Theorem errors_are_caught r semaphore stage s e s' t :
  0 < semaphore →
  process_csv_record_try host r stage s = (Raise e, s', t) →
  Signals.is_Exception e = true →
  (∃ u, r !! "username" = Some (PyStr u)
     ∧ Signals.process_csv_record host r semaphore stage s
       = (Ret false, s',
          t ++ [LogError ("Error processing record for user " +:+ u
                          +:+ ": " +:+ exc_str e)]))
  ∧ (∀ r' s0 e',
       result_of (Signals.process_csv_record host r' semaphore stage s0) = Raise e' →
       Signals.is_Exception e' = false)
  ∧ (∀ rows s0,
       match result_of (Signals.run_tasks
                          ((λ r', Signals.process_csv_record host r' semaphore stage)
                           <$> rows) s0) with
       | Ret futs =>
           length futs = length rows
           ∧ Forall (λ fut, ∀ e', fut = inl e' → Signals.is_Exception e' = false) futs
       | Raise e' => Signals.stops_loop e' = true
       | Block => False
       end).
Proof.
  intros Hsem Hraise He. split_and!.
  - destruct (process_csv_record_try_raise_username r stage s e) as [u Hu];
      [by rewrite Hraise|].
    exists u. split; [done|].
    unfold Signals.process_csv_record, async_with.
    destruct (decide (0 < semaphore)); [|lia].
    rewrite (try_except_Exception_caught _ _ _ _ _ _ Hraise He).
    rewrite process_csv_record_except_run by eauto.
    unfold get. by rewrite Hu.
  - intros r' s0 e' Hout. by apply process_csv_record_raise in Hout as [_ ?].
  - intros rows s0.
    pose proof (run_tasks_settled
                  ((λ r', Signals.process_csv_record host r' semaphore stage) <$> rows)
                  s0) as Hrun.
    rewrite length_fmap in Hrun. apply Hrun.
    apply Forall_fmap, Forall_forall. intros r' _. simpl. split.
    + by apply never_blocks_process_csv_record_Exception.
    + intros s1 e' Hout. by apply process_csv_record_raise in Hout as [_ ?].
Qed.

(** What leaves [process_secrets_file] is no instance of [Exception]. *)
Lemma process_secrets_file_raise picks csv_file max_concurrent stage s e :
  result_of (Signals.process_secrets_file host picks csv_file max_concurrent stage s)
  = Raise e →
  Signals.is_Exception e = false.
Proof.
  unfold Signals.process_secrets_file, with_local.
  set (m := Signals.try_except _ _).
  pose proof (try_except_Exception_raise
                (Signals.process_secrets_file_try host picks csv_file
                   max_concurrent stage)
                (λ e0, logger_error ("Error processing CSV file: " +:+ exc_str e0))
                ({| total := 0; success := 0; failed := 0 |}, s) e) as Hout.
  fold m in Hout. unfold mbind, M_bind, bind, result_of in *.
  destruct (m _) as [[[[]|e'|] ls] t]; simpl in *; try discriminate.
  intros [= ->]. by apply Hout.
Qed.

(** C5: a failure at the level of the whole file (the file cannot be read,
    the CSV is malformed) that is an instance of [Exception] is caught by
    [process_secrets_file], logged, and the run returns its counters, all
    zero; whatever leaves [process_secrets_file] is no instance of
    [Exception]. *)
Theorem whole_file_errors_are_caught picks csv_file max_concurrent stage s e :
  read_rows host csv_file (world s) = Err e →
  Signals.is_Exception e = true →
  Signals.process_secrets_file host picks csv_file max_concurrent stage s
  = (Ret {| total := 0; success := 0; failed := 0 |}, s,
     [LogError ("Error processing CSV file: " +:+ exc_str e)])
  ∧ (∀ picks' csv_file' max_concurrent' stage' s0 e',
       result_of (Signals.process_secrets_file host picks' csv_file'
                    max_concurrent' stage' s0) = Raise e' →
       Signals.is_Exception e' = false).
Proof.
  intros Hread He. split.
  - unfold Signals.process_secrets_file, with_local.
    assert (Htry : Signals.process_secrets_file_try host picks csv_file
                     max_concurrent stage
                     ({| total := 0; success := 0; failed := 0 |}, s)
                   = (Raise e, ({| total := 0; success := 0; failed := 0 |}, s), [])).
    { unfold Signals.process_secrets_file_try. munfold. unfold lift at 1. simpl.
      by rewrite Hread. }
    unfold mbind, M_bind, bind.
    rewrite (try_except_Exception_caught _ _ _ _ _ _ Htry He). done.
  - intros picks' csv_file' max_concurrent' stage' s0 e'.
    apply process_secrets_file_raise.
Qed.

(** [generate_sample_csv] lets only an exception that is no instance of
    [Exception] through. *)
Lemma generate_sample_csv_raise output_file num_records s e :
  result_of (Signals.generate_sample_csv host output_file num_records s) = Raise e →
  Signals.is_Exception e = false.
Proof.
  unfold Signals.generate_sample_csv. intros Hout.
  by apply try_except_Exception_raise in Hout as [_ ?].
Qed.

(** X14: [main_async] never ends in an instance of [Exception], in either
    of its modes and whatever the arguments, the files and the adapter do:
    what leaves it is an exception that derives from [BaseException]
    only. *)
Theorem main_async_raises_no_error picks args s e :
  result_of (Signals.main_async host picks args s) = Raise e →
  Signals.is_Exception e = false.
Proof.
  unfold Signals.main_async. destruct (arg_generate_sample args).
  - apply generate_sample_csv_raise.
  - intros Hout.
    apply (process_secrets_file_raise picks (arg_csv args) (arg_max_concurrent args)
             (arg_stage args) s e).
    revert Hout. munfold. simpl.
    destruct (Signals.process_secrets_file host picks (arg_csv args)
                (arg_max_concurrent args) (arg_stage args) s)
      as [[[res|e'|] s1] t1]; simpl; congruence.
Qed.

End BaseExceptions.


(** ** Collaborators that raise instances of Exception only *)

Section RaisesOnly.

Context {S A B : Type}.
Implicit Types (Q : pyexc → Prop) (m : M S A) (k : A → M S B) (x : S).

Lemma raises_only_ret Q (a : A) : raises_only Q (mret a : M S A).
Proof. by intros x e. Qed.

Lemma raises_only_raise Q e : Q e → raises_only Q (raise e : M S A).
Proof. by intros He x e' [= <-]. Qed.

Lemma raises_only_bind Q m k :
  raises_only Q m → (∀ a, raises_only Q (k a)) → raises_only Q (m ≫= k).
Proof.
  intros Hm Hk x e. specialize (Hm x). unfold raises_only in Hk. munfold.
  destruct (m x) as [[[a|e0|] x1] t1]; simpl in *; [| |done].
  - specialize (Hk a x1 e). by destruct (k a x1) as [[o x2] t2].
  - intros [= <-]. by apply Hm.
Qed.

(** What a [with] block or a task kept is raised again later: the
    continuation may count on [Q] for it. *)
Lemma raises_only_settle_bind Q m (k : pyexc + A → M S B) :
  raises_only Q m →
  (∀ a, raises_only Q (k (inr a))) →
  (∀ e, Q e → raises_only Q (k (inl e))) →
  raises_only Q (settle m ≫= k).
Proof.
  intros Hm Hr Hl x e. specialize (Hm x). unfold raises_only in Hr, Hl. munfold.
  destruct (m x) as [[[a|e0|] x1] t1]; simpl in *; [| |done].
  - specialize (Hr a x1 e). by destruct (k (inr a) x1) as [[o x2] t2].
  - specialize (Hl e0 (Hm e0 eq_refl) x1 e).
    by destruct (k (inl e0) x1) as [[o x2] t2].
Qed.

End RaisesOnly.

Lemma raises_only_emit {S} (Q : pyexc → Prop) ev : raises_only Q (emit ev : M S unit).
Proof. by intros x e. Qed.

Lemma raises_only_for_each {S A} (Q : pyexc → Prop) (xs : list A)
    (body : A → M S unit) :
  (∀ a, raises_only Q (body a)) → raises_only Q (for_each xs body).
Proof.
  intros Hbody. induction xs as [|a xs IH]; simpl.
  - apply raises_only_ret.
  - apply raises_only_bind; [apply Hbody|by intros _].
Qed.

Section Agreement.

Context {W : Type} (host : @Host W).
Hypothesis Hhost : Signals.raises_errors_only host.
Implicit Types (r : record) (s : @state W) (stage : string) (e : pyexc).

Local Abbreviation error := (λ e, Signals.is_Exception e = true).

Lemma raises_only_probe {A} (Q : pyexc → Prop) (f : W → answer A) :
  (∀ w e, f w = Err e → Q e) → raises_only Q (probe f).
Proof.
  intros Hf s e. munfold. simpl.
  destruct (f (world s)) as [a|e0] eqn:Hfw; simpl; [done|].
  intros [= <-]. by eapply Hf.
Qed.

Lemma raises_only_call {A} (Q : pyexc → Prop) ev (f : W → answer A * W) :
  (∀ w e, (f w).1 = Err e → Q e) → raises_only Q (call ev f).
Proof.
  intros Hf s e. munfold. simpl. specialize (Hf (world s)).
  destruct (f (world s)) as [[a|e0] w1]; simpl in *; [done|].
  intros [= <-]. by eapply Hf.
Qed.

Lemma raises_only_subscript r field : raises_only error (@subscript W r field).
Proof.
  intros s e. unfold subscript. destruct (r !! field); [done|].
  by intros [= <-].
Qed.

Lemma raises_only_update_file (Q : pyexc → Prop) path f :
  raises_only Q (@update_file W path f).
Proof. by intros s e. Qed.

Ltac raises_walk :=
  lazymatch goal with
  | |- raises_only _ (settle _ ≫= _) =>
      apply raises_only_settle_bind; [|intros ?|intros ? ?]
  | |- raises_only _ (_ ≫= _) => apply raises_only_bind; [|intros ?]
  | |- raises_only _ (mret _) => apply raises_only_ret
  | |- raises_only _ (raise _) => apply raises_only_raise
  | |- raises_only _ (subscript _ _) => apply raises_only_subscript
  | |- raises_only _ (probe _) => apply raises_only_probe
  | |- raises_only _ (call _ _) => apply raises_only_call
  | |- raises_only _ (logger_error _) => apply raises_only_emit
  | |- raises_only _ (logger_info _) => apply raises_only_emit
  | |- raises_only _ (update_file _ _) => apply raises_only_update_file
  | |- raises_only _ (if ?b then _ else _) => destruct b
  | |- raises_only _ (match ?x with _ => _ end) => destruct x
  end.

Lemma raises_only_check_required r fields k :
  raises_only error k → raises_only error (@check_required W r fields k).
Proof.
  intros Hk. induction fields as [|f fs IH]; simpl; [done|].
  repeat raises_walk; auto.
Qed.

(** With such collaborators the body of the [try] of a task raises
    instances of [Exception] only. *)
Lemma process_csv_record_try_raises_errors r stage :
  raises_only error (process_csv_record_try host r stage).
Proof.
  destruct Hhost as (Hexists & _ & _ & Hinit & Henter & Hauth & Hsubmit & Hexit).
  unfold process_csv_record_try. apply raises_only_check_required.
  unfold validate_file_path, Path, make_submission, submit, with_submitter.
  repeat raises_walk; eauto.
Qed.

(** The task is the same with and without the test of the class. *)
Lemma process_csv_record_agree r semaphore stage s :
  Signals.process_csv_record host r semaphore stage s
  = process_csv_record host r semaphore stage s.
Proof.
  unfold Signals.process_csv_record, process_csv_record, async_with.
  destruct (decide (0 < semaphore)); [|done].
  apply try_except_Exception_agree. intros e He.
  by apply (process_csv_record_try_raises_errors r stage s e).
Qed.

(** Tasks that never end in an exception give the event loop nothing to
    stop on. *)
Lemma run_tasks_agree (f g : record → M (@state W) bool) (rows : list record) s :
  (∀ r s', g r s' = f r s') →
  (∀ r s' e, result_of (f r s') ≠ Raise e) →
  Signals.run_tasks (g <$> rows) s = run_tasks (f <$> rows) s.
Proof.
  intros Hfg Hno. revert s. induction rows as [|r rows IH]; intros s; [done|].
  cbn [fmap list_fmap Signals.run_tasks run_tasks]. unfold Signals.raise_into_loop.
  specialize (Hno r s). munfold. rewrite Hfg.
  destruct (f r s) as [[[b|e|] s1] t1]; simpl in *; [|by destruct (Hno e)|done].
  rewrite (IH s1). by destruct (run_tasks (f <$> rows) s1) as [[[?|?|] ?] ?].
Qed.

Lemma run_tasks_no_raise (tasks : list (M (@state W) bool)) s e :
  result_of (run_tasks tasks s) ≠ Raise e.
Proof.
  revert s. induction tasks as [|t ts IH]; intros s; simpl; [done|]. munfold.
  destruct (t s) as [[[b|e0|] s1] t1]; simpl; [| |done];
    specialize (IH s1); by destruct (run_tasks ts s1) as [[[futs|e'|] s2] t2].
Qed.

Lemma run_tasks_futures (tasks : list (M (@state W) bool)) s futs :
  Forall (λ t, ∀ s' e, result_of (t s') ≠ Raise e) tasks →
  result_of (run_tasks tasks s) = Ret futs → ∃ bs, futs = inr <$> bs.
Proof.
  intros Hall. revert s futs.
  induction Hall as [|t ts Ht _ IH]; intros s futs; simpl.
  - intros [= <-]. by exists [].
  - specialize (Ht s). munfold.
    destruct (t s) as [[[b|e0|] s1] t1]; simpl in *; [|by destruct (Ht e0)|done].
    specialize (IH s1).
    destruct (run_tasks ts s1) as [[[futs'|e'|] s2] t2]; simpl in *; try done.
    intros [= <-]. destruct (IH futs' eq_refl) as [bs ->]. by exists (b :: bs).
Qed.

(** The body of the [try] of a run is the same with and without the test
    of the class. *)
Lemma process_secrets_file_try_agree picks csv_file max_concurrent stage
    (x : results * @state W) :
  Signals.process_secrets_file_try host picks csv_file max_concurrent stage x
  = process_secrets_file_try host picks csv_file max_concurrent stage x.
Proof.
  destruct x as [res s].
  unfold Signals.process_secrets_file_try, process_secrets_file_try, Semaphore.
  munfold. unfold lift at 1 3, modify_local at 1 2. simpl.
  destruct (read_rows host csv_file (world s)) as [rows|e]; simpl; [|done].
  destruct (decide (max_concurrent < 0)); simpl; [done|].
  rewrite !lift_run, !length_fmap, !event_loop_order_fmap.
  rewrite (run_tasks_agree (λ r, process_csv_record host r max_concurrent stage)).
  - done.
  - intros r s'. apply process_csv_record_agree.
  - intros r s' e. apply process_csv_record_no_raise.
Qed.

(** It raises instances of [Exception] only: what the reader raised, or
    the refusal of a negative bound. *)
Lemma process_secrets_file_try_raises_errors picks csv_file max_concurrent stage :
  raises_only error (process_secrets_file_try host picks csv_file max_concurrent stage).
Proof.
  destruct Hhost as (_ & Hread & _).
  intros [res s] e.
  unfold process_secrets_file_try, Semaphore.
  munfold. unfold lift at 1, modify_local at 1. simpl.
  destruct (read_rows host csv_file (world s)) as [rows|e0] eqn:Hrows; simpl.
  2:{ intros [= <-]. by eapply Hread. }
  destruct (decide (max_concurrent < 0)); simpl; [by intros [= <-]|].
  rewrite lift_run.
  set (tasks := event_loop_order _ _ _).
  pose proof (run_tasks_no_raise tasks s) as Hno.
  pose proof (run_tasks_futures tasks s) as Hfuts.
  unfold result_of in *.
  destruct (run_tasks tasks s) as [[[futs|e'|] s1] t1]; simpl in *;
    [|by destruct (Hno e')|done].
  destruct (Hfuts futs) as [bs ->]; [|done|].
  { subst tasks. rewrite event_loop_order_Permutation.
    apply Forall_fmap, Forall_forall. intros r _ s' e'. simpl.
    apply process_csv_record_no_raise. }
  destruct (count_completed_run bs 0
              {| total := Z.of_nat (length rows); success := success res;
                 failed := failed res |} s1) as (res' & t & Hrun & _).
  unfold set_total. simpl. by rewrite Hrun.
Qed.

(** For collaborators that raise instances of [Exception] only, the test
    of the class in the handlers changes nothing: a task, a run, the
    generator and the entry point are what they are without it. *)
Lemma process_secrets_file_agree picks csv_file max_concurrent stage s :
  Signals.process_secrets_file host picks csv_file max_concurrent stage s
  = process_secrets_file host picks csv_file max_concurrent stage s.
Proof.
  unfold Signals.process_secrets_file, process_secrets_file, with_local.
  unfold mbind, M_bind, bind.
  set (x := ({| total := 0; success := 0; failed := 0 |}, s)).
  assert (Hsame :
    Signals.try_except
      (Signals.process_secrets_file_try host picks csv_file max_concurrent stage)
      (λ e, logger_error ("Error processing CSV file: " +:+ exc_str e)) x
    = try_except
        (process_secrets_file_try host picks csv_file max_concurrent stage)
        (λ e, logger_error ("Error processing CSV file: " +:+ exc_str e)) x).
  { etrans; [|apply try_except_Exception_agree].
    - unfold Signals.try_except. by rewrite process_secrets_file_try_agree.
    - intros e. apply process_secrets_file_try_raises_errors. }
  by rewrite Hsame.
Qed.

Lemma generate_sample_csv_agree output_file num_records s :
  Signals.generate_sample_csv host output_file num_records s
  = generate_sample_csv host output_file num_records s.
Proof.
  destruct Hhost as (_ & _ & Hopen & _).
  unfold Signals.generate_sample_csv, generate_sample_csv.
  apply try_except_Exception_agree. intros e. revert s e.
  change (raises_only error
            (open_w host output_file ;;
             writerow output_file
               ["username"; "password"; "secret_type"; "secret"; "secret_desc"; "keepic"] ;;
             for_each (range num_records) (λ i, writerow output_file (sample_row i)) ;;
             logger_info ("Generated sample CSV file: " +:+ output_file))).
  unfold open_w, writerow.
  repeat first [apply raises_only_for_each; intros ? | raises_walk]; eauto.
Qed.

Lemma main_async_agree picks args s :
  Signals.main_async host picks args s = main_async host picks args s.
Proof.
  unfold Signals.main_async, main_async.
  destruct (arg_generate_sample args); [apply generate_sample_csv_agree|].
  unfold mbind, M_bind, bind. simpl.
  by rewrite process_secrets_file_agree.
Qed.

End Agreement.

(** ** The handlers at concrete inputs *)

(** C4 as it is stated, for every exception, fails.  The adapter of this
    host leaves [authenticate] with [SystemExit], which derives from
    [BaseException] only: the scope of the adapter is left, the handler of
    line 61 does not match, and the exception leaves
    [process_csv_record]; nothing is logged for the row and no boolean is
    returned. *)
Lemma interpreter_exit_leaves_record :
  let quit := PyExc "SystemExit" "1" in
  let host := demo_host (Ok []) (Err quit) in
  let r := demo_row "text" "This is secret #1" in
  Signals.process_csv_record host r 1 "dev" demo_state
  = (Raise quit, demo_state,
     [SvInit "dev" false; SvEnter;
      LogInfo "Attempting to protect secret for user: user1";
      SvAuthenticate (PyStr "user1") (PyStr "password1"); SvExit])
  ∧ result_of (Signals.process_csv_record host r 1 "dev" demo_state) ≠ Ret false.
Proof. split; [by vm_compute|]. by vm_compute. Qed.

Lemma errors_are_caught_witness :
  let crash := PyExc "RuntimeError" "browser crashed" in
  let host := demo_host (Ok []) (Err crash) in
  let r := demo_row "text" "This is secret #1" in
  Signals.process_csv_record host r 1 "dev" demo_state
  = (Ret false, demo_state,
     [SvInit "dev" false; SvEnter;
      LogInfo "Attempting to protect secret for user: user1";
      SvAuthenticate (PyStr "user1") (PyStr "password1"); SvExit;
      LogError "Error processing record for user user1: browser crashed"]).
Proof.
  assert (H1 : 0 < 1) by lia.
  assert (H2 : process_csv_record_try
                 (demo_host (Ok []) (Err (PyExc "RuntimeError" "browser crashed")))
                 (demo_row "text" "This is secret #1") "dev" demo_state
               = (Raise (PyExc "RuntimeError" "browser crashed"), demo_state,
                  [SvInit "dev" false; SvEnter;
                   LogInfo "Attempting to protect secret for user: user1";
                   SvAuthenticate (PyStr "user1") (PyStr "password1"); SvExit]))
    by (vm_compute; reflexivity).
  assert (H3 : Signals.is_Exception (PyExc "RuntimeError" "browser crashed") = true)
    by reflexivity.
  destruct (errors_are_caught _ _ 1 "dev" _ _ _ _ H1 H2 H3) as ((u & Hu & Hrun) & _).
  vm_compute in Hu. injection Hu as <-. exact Hrun.
Defined.

(** C5 as it is stated, for every exception, fails twice.  A keyboard
    interrupt that arrives while the file is read passes the handler of
    line 102; and a cancellation raised inside the adapter passes the
    handler of line 61, is kept by the task, raised again by [await] on
    line 93 and passes the handler of line 102 ([asyncio.CancelledError]
    derives from [BaseException] since Python 3.8).  Both leave
    [process_secrets_file], which returns no counters. *)
Lemma base_exceptions_leave_batch :
  let interrupt := PyExc "KeyboardInterrupt" "" in
  let cancelled := PyExc "CancelledError" "" in
  Signals.process_secrets_file (demo_host (Err interrupt) (Ok true))
    [] "secrets.csv" 3 "dev" demo_state
  = (Raise interrupt, demo_state, [])
  ∧ result_of (Signals.process_secrets_file
                 (demo_host (Ok [demo_row "text" "This is secret #1"]) (Err cancelled))
                 [] "secrets.csv" 3 "dev" demo_state)
    = Raise cancelled.
Proof. split; by vm_compute. Qed.

Lemma whole_file_errors_are_caught_witness :
  let missing := PyExc "FileNotFoundError" "[Errno 2] No such file or directory: 'secrets.csv'" in
  let host := demo_host (Err missing) (Ok true) in
  Signals.process_secrets_file host [] "secrets.csv" 3 "dev" demo_state
  = (Ret {| total := 0; success := 0; failed := 0 |}, demo_state,
     [LogError ("Error processing CSV file: " +:+ exc_str missing)]).
Proof.
  exact (proj1 (whole_file_errors_are_caught
                  (demo_host (Err (PyExc "FileNotFoundError"
                     "[Errno 2] No such file or directory: 'secrets.csv'")) (Ok true))
                  [] "secrets.csv" 3 "dev" demo_state _ eq_refl eq_refl)).
Defined.

Lemma main_async_raises_no_error_witness :
  let interrupt := PyExc "KeyboardInterrupt" "" in
  let host := demo_host (Err interrupt) (Ok true) in
  let args := {| arg_csv := "secrets.csv"; arg_generate_sample := false;
                 arg_num_records := 5; arg_max_concurrent := 3; arg_stage := "dev" |} in
  result_of (Signals.main_async host [] args demo_state) = Raise interrupt
  ∧ Signals.is_Exception interrupt = false.
Proof.
  intros interrupt host args.
  assert (H1 : result_of (Signals.main_async host [] args demo_state) = Raise interrupt)
    by (by vm_compute).
  split; [exact H1|].
  exact (main_async_raises_no_error host [] args demo_state interrupt H1).
Defined.

Lemma sample_rows_are_processable_witness :
  let host := demo_host (Ok []) (Ok true) in
  let r := dict_row
             ["username"; "password"; "secret_type"; "secret"; "secret_desc"; "keepic"]
             ["user2"; "password2"; "text"; "This is secret #2"; "Sample Secret 2";
              "./keepic.jpg"] in
  valid_record host demo_state r
  ∧ process_csv_record host r 1 "dev" demo_state
    = try_except
        (submit host r "dev"
           {| name := PyStr "Sample Secret 2"; type := PyStr "text"; tag := PyStr "";
              text := PyStr "This is secret #2"; keepic_path := PyStr "./keepic.jpg" |})
        (process_csv_record_except r) demo_state.
Proof.
  intros host r.
  assert (H1 : 0 < 1) by lia.
  assert (H2 : "user2;password2;text;This is secret #2;Sample Secret 2;./keepic.jpg"
               ∈ tail (lines_from
                         (default ""
                            (files (state_of (generate_sample_csv host "sample.csv" 2
                                                demo_state)) !! "sample.csv")) ""))
    by decide_by_compute.
  destruct (sample_rows_are_processable host "sample.csv" 2 1 "dev" demo_state
              demo_state H1 eq_refl eq_refl _ H2)
    as (Hvalid & sub & Hmake & _ & _ & _ & Hrun).
  split; [exact Hvalid|].
  vm_compute in Hmake. injection Hmake as <-. exact Hrun.
Defined.
